(** * common/download.go: the download client and the HTTP downloader

    A shallow embedding of [src/common/download.go].  The Go code talks to
    a file, to an HTTP client and to the go-getter library; here the
    outcome of each of those calls is read from a [World] record, so that
    [Download] is a function of the downloader, the destination file and
    the world it runs in.  Every assignment to [d.progress] and [d.total],
    every request handed to [httpClient.Do] and every [dst.Write] is
    logged, in order, in the trace of the run: this is what a concurrent
    observer polling [Progress()] and [Total()] can see.

    The objects that the program reaches through pointers (configurations,
    HTTP downloaders) live in a [Heap].  [uint] and [int] are the 64-bit
    integers of the 64-bit Go ports; [float64] is IEEE 754 binary64, with
    the operations of the Standard Library's [SpecFloat]. *)

From Stdlib Require Import ZArith List String Lia Sorted.
From Stdlib Require Import Strings.Byte DecimalString.
From Stdlib Require Import Floats.SpecFloat.
From stdpp Require Import base option gmap strings list.

Local Open Scope Z_scope.

(** ** Machine integers *)

Definition uint_size : Z := 2 ^ 64.

(** The conversion [uint(x)] of a signed machine integer, and the result of
    unsigned arithmetic: the value modulo [2^64]. *)
Definition uint (x : Z) : Z := x mod uint_size.

Definition min_int64 : Z := - 2 ^ 63.
Definition max_int64 : Z := 2 ^ 63 - 1.

(** ** Errors *)

(** Go's [error] values; [io.EOF] is the one the code compares against.
    A nil error is [None] in an [option error]. *)
Inductive error :=
  | io_EOF
  | Err (msg : string).

(** ** The destination file *)

(** An open [*os.File]: the bytes on disk and the write position. *)
Record File := mkFile {
  data : list byte;
  pos : nat;
}.

(** Bytes [b] stored at position [at_]: the file is overwritten from there
    and grows when the bytes go past its end (a gap is filled with zero
    bytes, as the operating system does). *)
Definition store (old : list byte) (at_ : nat) (b : list byte) : list byte :=
  take at_ old ++ replicate (at_ - length old) x00%byte ++ b
    ++ drop (at_ + length b) old.

Definition file_write (f : File) (b : list byte) : File :=
  {| data := store (data f) (pos f) b; pos := (pos f + length b)%nat |}.

(** [fi.Size()] *)
Definition Size (f : File) : Z := Z.of_nat (length (data f)).

(** ** HTTP requests and responses *)

Record Request := mkRequest {
  Method : string;
  URL : string;
  ReqHeader : gmap string string;
}.

(** [req.Header.Set(k, v)] *)
Definition Header_Set (req : Request) (k v : string) : Request :=
  {| Method := Method req; URL := URL req;
     ReqHeader := <[k := v]> (ReqHeader req) |}.

Definition set_Method (req : Request) (m : string) : Request :=
  {| Method := m; URL := URL req; ReqHeader := ReqHeader req |}.

(** A response body as the loop of [Download] reads it: each element of
    [reads] is a [Read] that returned that many bytes and a nil error; the
    last [Read] returns [last_bytes] together with the non-nil error
    [last_err] ([io.EOF] at a clean end of the stream). *)
Record ReadCloser := mkBody {
  reads : list (list byte);
  last_bytes : list byte;
  last_err : error;
}.

Record Response := mkResponse {
  StatusCode : Z;
  Header : gmap string string;
  ContentLength : Z;
  Body : ReadCloser;
}.

(** [resp.Header.Get(k)]: the empty string when the header is absent. *)
Definition Header_Get (resp : Response) (k : string) : string :=
  default EmptyString (Header resp !! k).

(** [fmt.Sprintf("bytes=%d-", n)] *)
Definition Sprintf_bytes (n : Z) : string :=
  String.append "bytes=" (String.append (NilZero.string_of_int (Z.to_int n)) "-").

(** ** The world a download runs in *)

(** What the calls that leave the program return.  [None] is a nil error.
    [Write_fault k] is the [k]-th call of [dst.Write] (from 0): [None] when
    all the bytes are written, [Some (n, e)] when it returns [e] after
    writing at most [n] bytes. *)
Record World := mkWorld {
  Seek_start : option error;
  NewRequest : option error;
  Do : Request -> error + Response;
  Stat : option error;
  Seek_end : option error;
  Write_fault : nat -> option (nat * error);
}.

(** ** HTTPDownloader *)

Record HTTPDownloader := mkHTTPDownloader {
  progress : Z;
  total : Z;
  userAgent : string;
}.

(** What an observer of a running [Download] can see, in order. *)
Inductive event :=
  | SetProgress (v : Z)
  | SetTotal (v : Z)
  | Sent (req : Request)
  | Wrote (b : list byte).

Record State := mkState {
  d : HTTPDownloader;
  dst : File;
  nwrites : nat;
  trace : list event;
}.

(** The monad of [Download]: the state is threaded, and [inl err] is the
    statement [return err]. *)
Definition M (A : Type) : Type := State -> (error + A) * State.

#[export] Instance M_ret : MRet M := fun A (x : A) s => (inr x, s).
#[export] Instance M_bind : MBind M := fun A B (f : A -> M B) (c : M A) s =>
  match c s with
  | (inl e, s') => (inl e, s')
  | (inr x, s') => f x s'
  end.

Definition fail {A} (e : error) : M A := fun s => (inl e, s).

(** [if err != nil { return err }] *)
Definition check (r : option error) : M unit :=
  match r with
  | Some e => fail e
  | None => mret tt
  end.

Definition get_d : M HTTPDownloader := fun s => (inr (d s), s).
Definition get_dst : M File := fun s => (inr (dst s), s).

Definition log (e : event) : M unit := fun s =>
  (inr tt, {| d := d s; dst := dst s; nwrites := nwrites s;
              trace := trace s ++ [e] |}).

Definition put_d (x : HTTPDownloader) : M unit := fun s =>
  (inr tt, {| d := x; dst := dst s; nwrites := nwrites s; trace := trace s |}).

Definition put_dst (f : File) : M unit := fun s =>
  (inr tt, {| d := d s; dst := f; nwrites := nwrites s; trace := trace s |}).

(** [d.progress = v] *)
Definition set_progress (v : Z) : M unit :=
  x ← get_d;
  put_d {| progress := v; total := total x; userAgent := userAgent x |};;
  log (SetProgress v).

(** [d.total = v] *)
Definition set_total (v : Z) : M unit :=
  x ← get_d;
  put_d {| progress := progress x; total := v; userAgent := userAgent x |};;
  log (SetTotal v).

(** [dst.Seek(0, 0)]: a failed seek leaves the position where it was. *)
Definition seek_start (w : World) : M (option error) :=
  match Seek_start w with
  | Some e => mret (Some e)
  | None => f ← get_dst; put_dst {| data := data f; pos := 0 |};; mret None
  end.

(** [dst.Seek(0, os.SEEK_END)] *)
Definition seek_end (w : World) : M (option error) :=
  match Seek_end w with
  | Some e => mret (Some e)
  | None =>
      f ← get_dst; put_dst {| data := data f; pos := length (data f) |};;
      mret None
  end.

(** [dst.Stat()]: the size of the file, or an error. *)
Definition stat (w : World) : M (error + Z) :=
  match Stat w with
  | Some e => mret (inl e)
  | None => f ← get_dst; mret (inr (Size f))
  end.

(** [httpClient.Do(req)] *)
Definition do (w : World) (req : Request) : M (error + Response) :=
  log (Sent req);; mret (Do w req).

(** [dst.Write(b)]: returns the error of the write, if any. *)
Definition write (w : World) (b : list byte) : M (option error) := fun s =>
  let k := nwrites s in
  let written := match Write_fault w k with
                 | None => b
                 | Some (n, _) => take n b
                 end in
  (inr (snd <$> Write_fault w k),
   {| d := d s; dst := file_write (dst s) written; nwrites := S k;
      trace := trace s ++ [Wrote written] |}).

(** The streaming loop of [Download], lines 177 to 192. *)
Fixpoint copy_loop (w : World) (rs : list (list byte))
    (lastb : list byte) (laste : error) : M unit :=
  match rs with
  | b :: rs' =>
      (* n, err := resp.Body.Read(buffer[:]) with err == nil *)
      x ← get_d;
      set_progress (uint (progress x + uint (Z.of_nat (length b))));;
      werr ← write w b;
      check werr;;
      copy_loop w rs' lastb laste
  | [] =>
      match laste with
      | io_EOF =>
          x ← get_d;
          set_progress (uint (progress x + uint (Z.of_nat (length lastb))));;
          werr ← write w lastb;
          check werr
      | e => fail e
      end
  end.

Definition is_2xx (code : Z) : bool := (200 <=? code) && (code <? 300).

(** The probe, lines 153 to 165: the request that the GET will reuse. *)
Definition probe (w : World) (req : Request) : M Request :=
  r ← do w req;
  match r with
  | inr resp =>
      if is_2xx (StatusCode resp) then
        if String.eqb (Header_Get resp "Accept-Ranges") "bytes" then
          fi ← stat w;
          match fi with
          | inr size =>
              serr ← seek_end w;
              match serr with
              | None =>
                  set_progress (uint size);;
                  mret (Header_Set req "Range" (Sprintf_bytes size))
              | Some _ => mret req
              end
          | inl _ => mret req
          end
        else mret req
      else mret req
  | inl _ => mret req
  end.

(** Lines 127 to 168 of [Download]: everything up to the request that the
    GET sends. *)
Definition prepare (w : World) (src : string) : M Request :=
  serr ← seek_start w;
  check serr;;
  set_progress 0;;
  check (NewRequest w);;
  let req := {| Method := "HEAD"; URL := src; ReqHeader := ∅ |} in
  x ← get_d;
  let req := if String.eqb (userAgent x) "" then req
             else Header_Set req "User-Agent" (userAgent x) in
  req ← probe w req;
  mret (set_Method req "GET").

(** Lines 170 to 194 of [Download]: the GET and the streaming of its body. *)
Definition transfer (w : World) (req : Request) : M unit :=
  r ← do w req;
  match r with
  | inl err => fail err
  | inr resp =>
      x ← get_d;
      set_total (uint (progress x + uint (ContentLength resp)));;
      copy_loop w (reads (Body resp)) (last_bytes (Body resp))
        (last_err (Body resp))
  end.

(** [func (d *HTTPDownloader) Download(dst *os.File, src *url.URL) error];
    [src] is [src.String()].  [inr tt] is [return nil]. *)
Definition Download (w : World) (src : string) : M unit :=
  req ← prepare w src;
  transfer w req.

(** [Cancel()] on an [HTTPDownloader]: nothing is done. *)
Definition HTTPDownloader_Cancel (x : HTTPDownloader) : HTTPDownloader := x.

(** [d.Progress()] and [d.Total()] *)
Definition Progress (x : HTTPDownloader) : Z := progress x.
Definition Total (x : HTTPDownloader) : Z := total x.

(** Running [Download] on a downloader and a destination file. *)
Definition start (x : HTTPDownloader) (f : File) : State :=
  {| d := x; dst := f; nwrites := 0; trace := [] |}.

Definition run (w : World) (src : string) (x : HTTPDownloader) (f : File)
  : (error + unit) * State :=
  Download w src (start x f).

(** The bytes of a body, in the order they are read. *)
Definition body_bytes (b : ReadCloser) : list byte :=
  concat (reads b) ++ last_bytes b.

(** The number of bytes of a body. *)
Definition body_length (b : ReadCloser) : Z := Z.of_nat (length (body_bytes b)).

(** What a trace says of the two counters, of the requests and of the
    writes. *)
Definition progress_values (t : list event) : list Z :=
  omap (fun e => match e with SetProgress v => Some v | _ => None end) t.

Definition total_values (t : list event) : list Z :=
  omap (fun e => match e with SetTotal v => Some v | _ => None end) t.

Definition sent (t : list event) : list Request :=
  omap (fun e => match e with Sent r => Some r | _ => None end) t.

Definition writes (t : list event) : list (list byte) :=
  omap (fun e => match e with Wrote b => Some b | _ => None end) t.

(** ** The phases of [Download] in closed form

    These definitions restate what [prepare] and one turn of [copy_loop] do
    to the state; the lemmas [prepare_eq], [copy_loop_cons] and
    [copy_loop_nil] prove that they agree with the code above. *)

(** The request of the probe, lines 138 to 145. *)
Definition head_request (ua src : string) : Request :=
  let req := {| Method := "HEAD"; URL := src; ReqHeader := ∅ |} in
  if String.eqb ua "" then req else Header_Set req "User-Agent" ua.

(** The probe lets the transfer resume. *)
Definition resumes (w : World) (req : Request) : bool :=
  match Do w req with
  | inr resp =>
      is_2xx (StatusCode resp)
      && String.eqb (Header_Get resp "Accept-Ranges") "bytes"
      && bool_decide (Stat w = None) && bool_decide (Seek_end w = None)
  | inl _ => false
  end.

Definition reset_state (s : State) : State :=
  {| d := {| progress := 0; total := total (d s); userAgent := userAgent (d s) |};
     dst := {| data := data (dst s); pos := 0 |};
     nwrites := nwrites s;
     trace := trace s ++ [SetProgress 0] |}.

Definition resumed_state (req : Request) (s : State) : State :=
  {| d := {| progress := uint (Size (dst s)); total := total (d s);
             userAgent := userAgent (d s) |};
     dst := {| data := data (dst s); pos := length (data (dst s)) |};
     nwrites := nwrites s;
     trace := trace s
              ++ [SetProgress 0; Sent req; SetProgress (uint (Size (dst s)))] |}.

Definition fresh_state (req : Request) (s : State) : State :=
  {| d := {| progress := 0; total := total (d s); userAgent := userAgent (d s) |};
     dst := {| data := data (dst s); pos := 0 |};
     nwrites := nwrites s;
     trace := trace s ++ [SetProgress 0; Sent req] |}.

(** The request of the GET when the transfer resumes, and when it does
    not. *)
Definition range_request (ua src : string) (size : Z) : Request :=
  set_Method (Header_Set (head_request ua src) "Range" (Sprintf_bytes size)) "GET".

Definition plain_request (ua src : string) : Request :=
  set_Method (head_request ua src) "GET".

(** The request of the GET of a run. *)
Definition get_request (w : World) (src : string) (x : HTTPDownloader) (f : File)
  : Request :=
  if resumes w (head_request (userAgent x) src)
  then range_request (userAgent x) src (Size f)
  else plain_request (userAgent x) src.

(** The bytes that the [k]-th [Write] puts in the file. *)
Definition written (w : World) (k : nat) (b : list byte) : list byte :=
  match Write_fault w k with
  | None => b
  | Some (n, _) => take n b
  end.

(** The state after one turn of the loop that read [b]. *)
Definition chunk_state (w : World) (b : list byte) (s : State) : State :=
  let v := uint (progress (d s) + uint (Z.of_nat (length b))) in
  let wb := written w (nwrites s) b in
  {| d := {| progress := v; total := total (d s); userAgent := userAgent (d s) |};
     dst := file_write (dst s) wb;
     nwrites := S (nwrites s);
     trace := trace s ++ [SetProgress v; Wrote wb] |}.

(** The state after line 175. *)
Definition total_state (req : Request) (resp : Response) (s : State) : State :=
  let v := uint (progress (d s) + uint (ContentLength resp)) in
  {| d := {| progress := progress (d s); total := v; userAgent := userAgent (d s) |};
     dst := dst s;
     nwrites := nwrites s;
     trace := trace s ++ [Sent req; SetTotal v] |}.

(** A world in which no [Write] fails. *)
Definition writes_ok (w : World) : Prop := forall k, Write_fault w k = None.

(** ** float64 *)

(** IEEE 754 binary64 as the Standard Library specifies it. *)
Definition f64_prec : Z := 53.
Definition f64_emax : Z := 1024.

(** [float64(n)] for an integer [n]: rounded to nearest, ties to even. *)
Definition float64 (n : Z) : spec_float :=
  binary_normalize f64_prec f64_emax n 0 false.

Definition f64_div : spec_float -> spec_float -> spec_float :=
  SFdiv f64_prec f64_emax.
Definition f64_mul : spec_float -> spec_float -> spec_float :=
  SFmul f64_prec f64_emax.

(** The integer part of a finite float, rounded toward zero. *)
Definition f64_trunc (s : bool) (m : positive) (e : Z) : Z :=
  Z.quot (cond_Zopp s (Z.pos m) * 2 ^ Z.max e 0) (2 ^ Z.max (- e) 0).

(** The conversion [int(f)] of a float64.  The Go specification leaves the
    result open when the value is not representable (NaN, an infinity, a
    value out of the range of [int]): it is then what the processor's
    conversion instruction gives, [cvt_invalid]. *)
Record Arch := mkArch {
  cvt_invalid : spec_float -> Z;
}.

Definition int_of_float64 (a : Arch) (f : spec_float) : Z :=
  match f with
  | S754_zero _ => 0
  | S754_finite s m e =>
      let v := f64_trunc s m e in
      if (min_int64 <=? v) && (v <=? max_int64) then v else cvt_invalid a f
  | _ => cvt_invalid a f
  end.

(** amd64: CVTTSD2SQ answers the "integer indefinite" value. *)
Definition amd64 : Arch := {| cvt_invalid := fun _ => min_int64 |}.

(** arm64: FCVTZS saturates and sends NaN to 0. *)
Definition arm64 : Arch :=
  {| cvt_invalid := fun f =>
       match f with
       | S754_nan | S754_zero _ => 0
       | S754_infinity true | S754_finite true _ _ => min_int64
       | S754_infinity false | S754_finite false _ _ => max_int64
       end |}.

(** ** Rounding to binary64 in closed form

    Definitions that the proofs about [PercentProgress] reason with. *)

Definition inexact (r : shr_record) : bool := shr_r r || shr_s r.

Definition fexp64 (e : Z) : Z := fexp f64_prec f64_emax e.

(** A float that is zero or positive and at most [mb * 2^eb]. *)
Definition float_le (f : spec_float) (mb eb : Z) : Prop :=
  match f with
  | S754_zero _ => True
  | S754_finite false m e => e <= eb /\ Z.pos m <= mb * 2 ^ (eb - e)
  | _ => False
  end.

(** Whether rounding [n] to a multiple of [2^s] goes up: more than half, or
    half and an odd quotient. *)
Definition round_up (n s : Z) : Z :=
  if Z.odd (n / 2 ^ (s - 1))
     && (negb (n mod 2 ^ (s - 1) =? 0) || Z.odd (n / 2 ^ s))
  then 1 else 0.

(** [n] rounded to 53 significant bits, to nearest, ties to even. *)
Definition nearest53 (n : Z) : Z :=
  if Zdigits2 n <=? 53 then n
  else let s := Zdigits2 n - 53 in (n / 2 ^ s + round_up n s) * 2 ^ s.

(** The last steps of [binary_round_aux], after the rounding. *)
Definition finish (m : Z) (e : Z) : spec_float :=
  let '(r, e') := shr_fexp f64_prec f64_emax m e loc_Exact in
  match shr_m r with
  | 0 => S754_zero false
  | Z.pos p => if e' <=? f64_emax - f64_prec then S754_finite false p e'
               else S754_infinity false
  | Z.neg _ => S754_nan
  end.

(** ** DownloadConfig, DownloadClient *)

Definition loc := positive.

(** A value of the interface type [Downloader]: a pointer to an
    [HTTPDownloader], or an implementation of some other type, given by what
    its [Progress()] and [Total()] return. *)
Inductive Downloader :=
  | HTTPDownloaderPtr (l : loc)
  | OtherDownloader (other_progress other_total : Z).

Record DownloadConfig := mkDownloadConfig {
  Url : string;
  TargetPath : string;
  DownloaderMap : option (gmap string Downloader);  (* [None] is the nil map *)
  CopyFile : bool;
  Hash : option string;                             (* [None] is the nil interface *)
  Checksum : list byte;
  UserAgent : string;
}.

(** The objects behind the pointers of the program. *)
Record Heap := mkHeap {
  configs : gmap loc DownloadConfig;
  downloaders : gmap loc HTTPDownloader;
}.

Record DownloadClient := mkDownloadClient {
  config : loc;
  downloader : option Downloader;                   (* [None] is the nil interface *)
}.

(** [&HTTPDownloader{userAgent: ua}]: a new object at an unused address. *)
Definition new_HTTPDownloader (ds : gmap loc HTTPDownloader) (ua : string)
  : loc * gmap loc HTTPDownloader :=
  let l := fresh (dom ds) in
  (l, <[l := {| progress := 0; total := 0; userAgent := ua |}]> ds).

Definition set_DownloaderMap (c : DownloadConfig) (m : gmap string Downloader)
  : DownloadConfig :=
  {| Url := Url c; TargetPath := TargetPath c; DownloaderMap := Some m;
     CopyFile := CopyFile c; Hash := Hash c; Checksum := Checksum c;
     UserAgent := UserAgent c |}.

(** [func NewDownloadClient(c *DownloadConfig) *DownloadClient]; [None] is
    the panic of a nil [c]. *)
Definition NewDownloadClient (h : Heap) (c : loc)
  : option (Heap * DownloadClient) :=
  cfg ← configs h !! c;
  match DownloaderMap cfg with
  | None =>
      let '(l1, ds1) := new_HTTPDownloader (downloaders h) (UserAgent cfg) in
      let '(l2, ds2) := new_HTTPDownloader ds1 (UserAgent cfg) in
      let m : gmap string Downloader :=
        <["https" := HTTPDownloaderPtr l2]>
          (<["http" := HTTPDownloaderPtr l1]> ∅) in
      Some ({| configs := <[c := set_DownloaderMap cfg m]> (configs h);
               downloaders := ds2 |},
            {| config := c; downloader := None |})
  | Some _ => Some (h, {| config := c; downloader := None |})
  end.

(** The go-getter client that [Get] builds. *)
Inductive ClientMode := ClientModeAny | ClientModeFile | ClientModeDir.

Record getter_Client := mkGetterClient {
  Src : string;
  Dst : string;
  Pwd : string;
  Mode : ClientMode;
  Dir : bool;
}.

(** What [os.Getwd] and go-getter's [Get] return. *)
Record GetWorld := mkGetWorld {
  Getwd : error + string;
  getter_Get : getter_Client -> option error;
}.

(** [func (d *DownloadClient) Get() (string, error)]: the client after the
    call and the two results; [None] is the panic of a nil [d.config]. *)
Definition Get (w : GetWorld) (h : Heap) (dc : DownloadClient)
  : option (DownloadClient * (string * option error)) :=
  match Getwd w with
  | inl err => Some (dc, (EmptyString, Some err))
  | inr pwd =>
      cfg ← configs h !! config dc;
      let gc := {| Src := Url cfg; Dst := TargetPath cfg; Pwd := pwd;
                   Mode := ClientModeFile; Dir := false |} in
      match getter_Get w gc with
      | Some err => Some (dc, (EmptyString, Some err))
      | None => Some (dc, (TargetPath cfg, None))
      end
  end.

(** [func (d *DownloadClient) Cancel()]: nothing is done. *)
Definition DownloadClient_Cancel (dc : DownloadClient) : DownloadClient := dc.

(** A call of [Progress()] or [Total()] through the interface; [None] is
    the panic of a nil [*HTTPDownloader]. *)
Definition Downloader_Progress (h : Heap) (x : Downloader) : option Z :=
  match x with
  | HTTPDownloaderPtr l => Progress <$> downloaders h !! l
  | OtherDownloader p _ => Some p
  end.

Definition Downloader_Total (h : Heap) (x : Downloader) : option Z :=
  match x with
  | HTTPDownloaderPtr l => Total <$> downloaders h !! l
  | OtherDownloader _ t => Some t
  end.

(** [func (d *DownloadClient) PercentProgress() int] *)
Definition PercentProgress (a : Arch) (h : Heap) (dc : DownloadClient)
  : option Z :=
  match downloader dc with
  | None => Some (-1)
  | Some x =>
      p ← Downloader_Progress h x;
      t ← Downloader_Total h x;
      Some (int_of_float64 a
              (f64_mul (f64_div (float64 p) (float64 t)) (float64 100)))
  end.

(** Calls of [Get] one after the other on the same client. *)
Fixpoint Gets (ws : list GetWorld) (h : Heap) (dc : DownloadClient)
  : option DownloadClient :=
  match ws with
  | [] => Some dc
  | w :: ws' =>
      match Get w h dc with
      | Some (dc', _) => Gets ws' h dc'
      | None => None
      end
  end.

(** * Concrete inputs *)

Definition example_config : DownloadConfig :=
  {| Url := "http://example.com/disk.iso"; TargetPath := "/tmp/disk.iso";
     DownloaderMap := None; CopyFile := false; Hash := None;
     Checksum := []; UserAgent := "packer" |}.

Definition example_heap : Heap :=
  {| configs := {[ 1%positive := example_config ]}; downloaders := ∅ |}.

Definition example_client_heap : Heap :=
  match NewDownloadClient example_heap 1%positive with
  | Some (h, _) => h
  | None => example_heap
  end.

Definition getwd_fails : GetWorld :=
  {| Getwd := inl (Err "getwd"); getter_Get := fun _ => None |}.
Definition fetch_fails : GetWorld :=
  {| Getwd := inr "/root"; getter_Get := fun _ => Some (Err "404") |}.
Definition fetch_ok : GetWorld :=
  {| Getwd := inr "/root"; getter_Get := fun _ => None |}.


Definition url : string := "http://example.com/disk.iso".

Definition packer : HTTPDownloader :=
  {| progress := 0; total := 0; userAgent := "packer" |}.

Definition chunk (n : nat) : list byte := repeat x61%byte n.

Definition eof_body (rs : list (list byte)) (lb : list byte) : ReadCloser :=
  {| reads := rs; last_bytes := lb; last_err := io_EOF |}.

Definition no_faults (do_ : Request -> error + Response) : World :=
  {| Seek_start := None; NewRequest := None; Do := do_; Stat := None;
     Seek_end := None; Write_fault := fun _ => None |}.

(** A server of a file of 10000 bytes that supports ranges. *)
Definition range_server : World :=
  no_faults (fun req =>
    if String.eqb (Method req) "HEAD" then
      inr {| StatusCode := 200; Header := {[ "Accept-Ranges" := "bytes" ]};
             ContentLength := 10000; Body := eof_body [] [] |}
    else if decide (ReqHeader req !! "Range" = Some "bytes=4096-") then
      inr {| StatusCode := 206; Header := ∅; ContentLength := 5904;
             Body := eof_body [chunk 4096] (chunk 1808) |}
    else
      inr {| StatusCode := 200; Header := ∅; ContentLength := 10000;
             Body := eof_body [chunk 4096; chunk 4096] (chunk 1808) |}).

(** The first 4096 bytes of that file, already on disk. *)
Definition partial_file : File := {| data := chunk 4096; pos := 0 |}.

Definition empty_file : File := {| data := []; pos := 0 |}.

(** A server that answers 404, with an error page, to every request. *)
Definition not_found_page : Response :=
  {| StatusCode := 404; Header := ∅; ContentLength := 9;
     Body := eof_body [] (chunk 9) |}.

Definition not_found_server : World := no_faults (fun _ => inr not_found_page).


Definition stale_file : File := {| data := chunk 5; pos := 0 |}.

(** A server that does not announce the length of its answer. *)
Definition chunked_response : Response :=
  {| StatusCode := 200; Header := ∅; ContentLength := -1;
     Body := eof_body [chunk 2] (chunk 1) |}.

Definition chunked_server : World := no_faults (fun _ => inr chunked_response).

(** A client whose active downloader is the [HTTPDownloader] at address 1,
    with the given counters. *)
Definition active_heap (p t : Z) : Heap :=
  {| configs := {[ 1%positive := example_config ]};
     downloaders := {[ 1%positive :=
                       {| progress := p; total := t; userAgent := "packer" |} ]} |}.

Definition active_client : DownloadClient :=
  {| config := 1%positive; downloader := Some (HTTPDownloaderPtr 1%positive) |}.

(** * Further definitions *)

(** The offset a run writes from: the end of the destination when the
    transfer resumes, 0 when it does not. *)
Definition start_offset (w : World) (src : string) (x : HTTPDownloader)
    (f : File) : nat :=
  if resumes w (head_request (userAgent x) src) then length (data f) else 0%nat.

(** The chunks that the loop hands to [Write]: those of the reads without
    error and, at a clean end of the stream, those of the last read. *)
Definition attempted (b : ReadCloser) : list (list byte) :=
  reads b ++ match last_err b with
             | io_EOF => [last_bytes b]
             | Err _ => []
             end.

(** ** More concrete inputs *)

(** The eleven bytes of "hello world". *)
Definition hello : list byte :=
  [x68; x65; x6c; x6c; x6f; x20; x77; x6f; x72; x6c; x64]%byte.

(** A server of [hello] that supports ranges. *)
Definition hello_server : World :=
  no_faults (fun req =>
    if String.eqb (Method req) "HEAD" then
      inr {| StatusCode := 200; Header := {[ "Accept-Ranges" := "bytes" ]};
             ContentLength := 11; Body := eof_body [] [] |}
    else if decide (ReqHeader req !! "Range" = Some "bytes=5-") then
      inr {| StatusCode := 206; Header := ∅; ContentLength := 6;
             Body := eof_body [take 4 (drop 5 hello)] (drop 9 hello) |}
    else
      inr {| StatusCode := 200; Header := ∅; ContentLength := 11;
             Body := eof_body [take 4 hello; take 4 (drop 4 hello)]
                      (drop 8 hello) |}).

(** The answer of a server whose connection is reset after five bytes. *)
Definition reset_response : Response :=
  {| StatusCode := 200; Header := ∅; ContentLength := 11;
     Body := {| reads := [take 3 hello; take 2 (drop 3 hello)];
                last_bytes := [x20%byte];
                last_err := Err "connection reset" |} |}.

Definition reset_server : World := no_faults (fun _ => inr reset_response).

(** The answer of a server of [hello] in three reads, and a world in which
    the second write fails after one byte. *)
Definition hello_response : Response :=
  {| StatusCode := 200; Header := ∅; ContentLength := 11;
     Body := eof_body [take 4 hello; take 4 (drop 4 hello)] (drop 8 hello) |}.

(** A server that answers 404 to the probe and 200 with [hello], in three
    reads, to the GET. *)
Definition hello_no_head : World :=
  no_faults (fun req =>
    if String.eqb (Method req) "HEAD" then
      inr {| StatusCode := 404; Header := ∅; ContentLength := 0;
             Body := eof_body [] [] |}
    else if String.eqb (Method req) "GET" then inr hello_response
    else inl (Err "method")).

Definition disk_full : World :=
  {| Seek_start := None; NewRequest := None;
     Do := fun _ => inr hello_response;
     Stat := None; Seek_end := None;
     Write_fault := fun k => if Nat.eqb k 1 then Some (1%nat, Err "disk full")
                             else None |}.

(** Worlds in which the first seek, the construction of the request, and
    [Stat] fail. *)
Definition seek_fails : World :=
  {| Seek_start := Some (Err "seek"); NewRequest := None;
     Do := fun _ => inr hello_response;
     Stat := None; Seek_end := None; Write_fault := fun _ => None |}.

Definition bad_url : World :=
  {| Seek_start := None; NewRequest := Some (Err "parse");
     Do := fun _ => inr hello_response;
     Stat := None; Seek_end := None; Write_fault := fun _ => None |}.

Definition stat_fails : World :=
  {| Seek_start := None; NewRequest := None; Do := Do hello_server;
     Stat := Some (Err "stat"); Seek_end := None;
     Write_fault := fun _ => None |}.

(** The first five bytes of [hello] on disk, and a downloader that has
    been used before. *)
Definition hello_prefix : File := {| data := take 5 hello; pos := 3 |}.

Definition used : HTTPDownloader :=
  {| progress := 700; total := 900; userAgent := "packer" |}.

(** A configuration that differs from [example_config] in everything but
    the URL and the target path. *)
Definition other_config : DownloadConfig :=
  {| Url := "http://example.com/disk.iso"; TargetPath := "/tmp/disk.iso";
     DownloaderMap := Some ∅; CopyFile := true; Hash := Some "sha256";
     Checksum := [x00%byte]; UserAgent := "" |}.

Definition other_heap : Heap :=
  {| configs := {[ 1%positive := other_config ]}; downloaders := ∅ |}.

(** * Properties of the client *)

Section Client.

Implicit Types (h : Heap) (c : loc) (dc : DownloadClient) (a : Arch).

Lemma NewDownloadClient_client h c h' dc :
  NewDownloadClient h c = Some (h', dc) ->
  dc = {| config := c; downloader := None |} /\ is_Some (configs h' !! c).
Proof.
  unfold NewDownloadClient. intros H.
  destruct (configs h !! c) as [cfg|] eqn:Hc; simpl in H; [|discriminate].
  destruct (DownloaderMap cfg); simpl in H.
  - injection H as <- <-. rewrite Hc. eauto.
  - injection H as <- <-. simpl. rewrite lookup_insert_eq. eauto.
Qed.

Lemma Get_client w h dc dc' r : Get w h dc = Some (dc', r) -> dc' = dc.
Proof.
  unfold Get. intros H.
  destruct (Getwd w); [congruence|].
  destruct (configs h !! config dc); simpl in H; [|discriminate].
  destruct (getter_Get w _); congruence.
Qed.

Lemma Get_returns w h dc :
  is_Some (configs h !! config dc) -> is_Some (Get w h dc).
Proof.
  intros [cfg Hc]. unfold Get. destruct (Getwd w); [eauto|].
  rewrite Hc. simpl. destruct (getter_Get w _); eauto.
Qed.

Lemma Gets_client ws h dc :
  is_Some (configs h !! config dc) -> Gets ws h dc = Some dc.
Proof.
  intros Hc. induction ws as [|w ws IH]; [reflexivity|]. simpl.
  destruct (Get_returns w h dc Hc) as [[dc' r] HG]. rewrite HG.
  apply Get_client in HG. subst dc'. exact IH.
Qed.

Lemma PercentProgress_nil a h dc :
  downloader dc = None -> PercentProgress a h dc = Some (-1).
Proof. unfold PercentProgress. intros ->. reflexivity. Qed.

(** C7: [Get] leaves the client as it found it, so a client made by
    [NewDownloadClient] answers -1 to [PercentProgress] whatever calls of
    [Get], failed or not, have been made on it, on every architecture. *)
Theorem Get_keeps_PercentProgress h0 c h dc :
  NewDownloadClient h0 c = Some (h, dc) ->
  (forall w dc' r, Get w h dc = Some (dc', r) -> downloader dc' = None) /\
  (forall ws, Gets ws h dc = Some dc) /\
  (forall a ws dc', Gets ws h dc = Some dc' ->
     PercentProgress a h dc' = Some (-1)).
Proof.
  intros HN. destruct (NewDownloadClient_client _ _ _ _ HN) as [-> Hc].
  split; [|split].
  - intros w dc' r HG. apply Get_client in HG. subst dc'. reflexivity.
  - intros ws. apply Gets_client. exact Hc.
  - intros a ws dc' HG. rewrite Gets_client in HG by exact Hc.
    injection HG as <-. reflexivity.
Qed.

Lemma fresh_downloader_None (ds : gmap loc HTTPDownloader) :
  ds !! fresh (dom ds) = None.
Proof. apply not_elem_of_dom, is_fresh. Qed.

(** C10: on a configuration whose [DownloaderMap] is nil,
    [NewDownloadClient] stores in it a map whose keys are exactly [http] and
    [https], bound to two distinct [HTTPDownloader]s that did not exist
    before, with zero counters and the user agent of the configuration; the
    other fields of the configuration, the other configurations and the
    downloaders that existed are left as they were.  On a configuration
    whose [DownloaderMap] is not nil nothing changes at all.  In both cases
    the new client has no active downloader. *)
Theorem NewDownloadClient_registry h c cfg :
  configs h !! c = Some cfg ->
  match DownloaderMap cfg with
  | None =>
      exists h' cfg' m l1 l2,
        NewDownloadClient h c
        = Some (h', {| config := c; downloader := None |}) /\
        configs h' !! c = Some cfg' /\
        DownloaderMap cfg' = Some m /\
        dom m = {[ "http"; "https" ]} /\
        m !! "http" = Some (HTTPDownloaderPtr l1) /\
        m !! "https" = Some (HTTPDownloaderPtr l2) /\
        l1 <> l2 /\
        downloaders h !! l1 = None /\ downloaders h !! l2 = None /\
        downloaders h' !! l1
        = Some {| progress := 0; total := 0; userAgent := UserAgent cfg |} /\
        downloaders h' !! l2
        = Some {| progress := 0; total := 0; userAgent := UserAgent cfg |} /\
        (forall l, l <> l1 -> l <> l2 ->
                   downloaders h' !! l = downloaders h !! l) /\
        Url cfg' = Url cfg /\ TargetPath cfg' = TargetPath cfg /\
        CopyFile cfg' = CopyFile cfg /\ Hash cfg' = Hash cfg /\
        Checksum cfg' = Checksum cfg /\ UserAgent cfg' = UserAgent cfg /\
        (forall c', c' <> c -> configs h' !! c' = configs h !! c')
  | Some _ =>
      NewDownloadClient h c = Some (h, {| config := c; downloader := None |})
  end.
Proof.
  intros Hc. unfold NewDownloadClient. rewrite Hc. simpl.
  destruct (DownloaderMap cfg) as [m0|] eqn:Hm; [reflexivity|].
  unfold new_HTTPDownloader.
  set (ds := downloaders h).
  set (l1 := fresh (dom ds)).
  set (d0 := {| progress := 0; total := 0; userAgent := UserAgent cfg |}).
  set (ds1 := <[l1 := d0]> ds).
  set (l2 := fresh (dom ds1)).
  assert (H1 : ds !! l1 = None) by apply fresh_downloader_None.
  assert (H2 : ds1 !! l2 = None) by apply fresh_downloader_None.
  assert (Hne : l1 <> l2).
  { intros Heq. rewrite <- Heq in H2. unfold ds1 in H2.
    rewrite lookup_insert_eq in H2. discriminate. }
  assert (H2' : ds !! l2 = None).
  { unfold ds1 in H2. rewrite lookup_insert_ne in H2 by exact Hne. exact H2. }
  eexists _, _, _, l1, l2. split; [reflexivity|]. simpl.
  split; [apply lookup_insert_eq|]. simpl.
  split; [reflexivity|].
  split; [rewrite !dom_insert_L, dom_empty_L; set_solver|].
  split; [rewrite lookup_insert_ne by discriminate; apply lookup_insert_eq|].
  split; [apply lookup_insert_eq|].
  split; [exact Hne|]. split; [exact H1|]. split; [exact H2'|].
  split.
  { rewrite lookup_insert_ne by (intros Heq; apply Hne; symmetry; exact Heq).
    apply lookup_insert_eq. }
  split; [apply lookup_insert_eq|].
  split.
  { intros l Hl1 Hl2. unfold ds1.
    rewrite !lookup_insert_ne by (intros Heq; subst l; contradiction).
    reflexivity. }
  do 6 (split; [reflexivity|]).
  intros c' Hc'. apply lookup_insert_ne. intros Heq. subst c'. contradiction.
Qed.

Lemma Get_keeps_PercentProgress_witness :
  PercentProgress amd64 example_client_heap
    {| config := 1%positive; downloader := None |} = Some (-1) /\
  Gets [fetch_ok; getwd_fails; fetch_fails] example_client_heap
    {| config := 1%positive; downloader := None |}
  = Some {| config := 1%positive; downloader := None |}.
Proof.
  assert (HN : NewDownloadClient example_heap 1%positive
               = Some (example_client_heap,
                       {| config := 1%positive; downloader := None |})).
  { unfold example_client_heap, NewDownloadClient. simpl.
    rewrite lookup_singleton_eq. reflexivity. }
  destruct (Get_keeps_PercentProgress _ _ _ _ HN) as (_ & HG & HP).
  split.
  - apply (HP amd64 []). reflexivity.
  - apply HG.
Defined.

Lemma NewDownloadClient_registry_witness :
  (exists cfg' m,
     configs example_client_heap !! 1%positive = Some cfg'
     /\ DownloaderMap cfg' = Some m /\ dom m = {[ "http"; "https" ]}) /\
  NewDownloadClient example_client_heap 1%positive
  = Some (example_client_heap, {| config := 1%positive; downloader := None |}).
Proof.
  assert (Hc : configs example_heap !! 1%positive = Some example_config).
  { apply lookup_singleton_eq. }
  pose proof (NewDownloadClient_registry example_heap 1%positive example_config Hc)
    as H.
  change (DownloaderMap example_config) with (@None (gmap string Downloader)) in H.
  cbv beta iota in H.
  destruct H as (h' & cfg' & m & l1 & l2 & HN & Hcfg & Hm & Hdom & _).
  assert (Hh : example_client_heap = h').
  { unfold example_client_heap. rewrite HN. reflexivity. }
  rewrite Hh. split.
  - exists cfg', m. split; [exact Hcfg|]. split; [exact Hm|exact Hdom].
  - pose proof (NewDownloadClient_registry h' 1%positive cfg' Hcfg) as H'.
    rewrite Hm in H'. exact H'.
Defined.

End Client.

(** * Properties of the HTTP downloader *)

Section Download.

Implicit Types (w : World) (s : State) (x : HTTPDownloader) (f : File).

Ltac monad_unfold :=
  unfold mbind, mret, M_bind, M_ret, check, fail, set_progress, set_total,
    get_d, get_dst, put_d, put_dst, log, write, do in *.

(** ** Arithmetic of [uint] *)

Lemma uint_range z : 0 <= uint z < uint_size.
Proof. unfold uint, uint_size. apply Z.mod_pos_bound. lia. Qed.

Lemma uint_small z : 0 <= z < uint_size -> uint z = z.
Proof. unfold uint. apply Z.mod_small. Qed.

Lemma uint_add_uint a b : uint (a + uint b) = uint (a + b).
Proof. unfold uint. apply Zplus_mod_idemp_r. Qed.

Lemma uint_uint_add a b : uint (uint a + b) = uint (a + b).
Proof. unfold uint. apply Zplus_mod_idemp_l. Qed.

(** ** Writing to the file *)

Lemma length_store old p b :
  length (store old p b) = Nat.max (length old) (p + length b).
Proof.
  unfold store.
  rewrite !length_app, length_take, length_replicate, length_drop. lia.
Qed.

Lemma store_app old p b1 b2 :
  store (store old p b1) (p + length b1) b2 = store old p (b1 ++ b2).
Proof.
  unfold store.
  set (pad := replicate (p - length old) x00%byte).
  assert (Hpad : length pad = (p - length old)%nat) by apply length_replicate.
  assert (Hl : length (take p old ++ pad) = p).
  { rewrite length_app, length_take. lia. }
  rewrite !(assoc_L (++) (take p old) pad).
  rewrite (assoc_L (++) (take p old ++ pad) b1).
  assert (Hl1 : length ((take p old ++ pad) ++ b1) = (p + length b1)%nat).
  { rewrite length_app, Hl. reflexivity. }
  rewrite take_app_length' by (symmetry; exact Hl1).
  rewrite (length_app (_ ++ b1)), Hl1.
  replace (p + length b1 - (p + length b1 + length (drop (p + length b1) old)))%nat
    with 0%nat by lia.
  simpl.
  rewrite drop_app_ge by lia.
  rewrite Hl1, drop_drop, length_app.
  rewrite <- !(assoc_L (++)).
  do 4 f_equal. apply (f_equal (fun n => drop n old)). lia.
Qed.

Lemma store_end old b : store old (length old) b = old ++ b.
Proof.
  unfold store. rewrite firstn_all, Nat.sub_diag. simpl.
  rewrite drop_ge by lia. rewrite app_nil_r. reflexivity.
Qed.

Lemma store_start old b : store old 0 b = b ++ drop (length b) old.
Proof. unfold store. rewrite take_0. reflexivity. Qed.

Lemma file_write_app f b1 b2 :
  file_write (file_write f b1) b2 = file_write f (b1 ++ b2).
Proof.
  unfold file_write. simpl. rewrite store_app, length_app.
  f_equal. lia.
Qed.

(** ** The phases in closed form *)

Lemma copy_loop_cons w b rs lb le s :
  copy_loop w (b :: rs) lb le s =
  match Write_fault w (nwrites s) with
  | Some (_, e) => (inl e, chunk_state w b s)
  | None => copy_loop w rs lb le (chunk_state w b s)
  end.
Proof.
  simpl. monad_unfold. simpl. unfold chunk_state, written.
  rewrite <- !(assoc_L (++)). simpl.
  destruct (Write_fault w (nwrites s)) as [[n e]|]; reflexivity.
Qed.

Lemma copy_loop_nil w lb le s :
  copy_loop w [] lb le s =
  match le with
  | io_EOF =>
      (match Write_fault w (nwrites s) with
       | Some (_, e) => inl e
       | None => inr tt
       end, chunk_state w lb s)
  | e => (inl e, s)
  end.
Proof.
  simpl. destruct le; [|reflexivity].
  monad_unfold. simpl. unfold chunk_state, written.
  rewrite <- !(assoc_L (++)). simpl.
  destruct (Write_fault w (nwrites s)) as [[n e]|]; reflexivity.
Qed.

Lemma prepare_eq w src s :
  prepare w src s =
  match Seek_start w with
  | Some e => (inl e, s)
  | None =>
      match NewRequest w with
      | Some e => (inl e, reset_state s)
      | None =>
          let ua := userAgent (d s) in
          if resumes w (head_request ua src) then
            (inr (range_request ua src (Size (dst s))),
             resumed_state (head_request ua src) s)
          else (inr (plain_request ua src), fresh_state (head_request ua src) s)
      end
  end.
Proof.
  unfold prepare, seek_start, probe, stat, seek_end, resumes,
    range_request, plain_request.
  destruct (Seek_start w) as [e|]; [reflexivity|].
  monad_unfold. simpl.
  destruct (NewRequest w) as [e|]; [reflexivity|]. simpl.
  fold (head_request (userAgent (d s)) src).
  set (req := head_request (userAgent (d s)) src).
  destruct (Do w req) as [e|resp]; simpl.
  { unfold fresh_state. rewrite <- !(assoc_L (++)). reflexivity. }
  destruct (is_2xx (StatusCode resp)); simpl;
    [|unfold fresh_state; rewrite <- !(assoc_L (++)); reflexivity].
  destruct (String.eqb (Header_Get resp "Accept-Ranges") "bytes"); simpl;
    [|unfold fresh_state; rewrite <- !(assoc_L (++)); reflexivity].
  destruct (Stat w) as [e|]; simpl;
    [unfold fresh_state; rewrite <- !(assoc_L (++)); reflexivity|].
  destruct (Seek_end w) as [e|]; simpl;
    [unfold fresh_state; rewrite <- !(assoc_L (++)); reflexivity|].
  unfold resumed_state, Size. simpl. rewrite <- !(assoc_L (++)). reflexivity.
Qed.

Lemma transfer_eq w req s :
  transfer w req s =
  match Do w req with
  | inl e =>
      (inl e, {| d := d s; dst := dst s; nwrites := nwrites s;
                 trace := trace s ++ [Sent req] |})
  | inr resp =>
      copy_loop w (reads (Body resp)) (last_bytes (Body resp))
        (last_err (Body resp)) (total_state req resp s)
  end.
Proof.
  unfold transfer. monad_unfold. simpl.
  destruct (Do w req) as [e|resp]; [reflexivity|]. simpl.
  unfold total_state. rewrite <- !(assoc_L (++)). reflexivity.
Qed.

Lemma Download_eq w src s :
  Download w src s =
  match prepare w src s with
  | (inl e, s1) => (inl e, s1)
  | (inr req, s1) => transfer w req s1
  end.
Proof. reflexivity. Qed.

(** ** The loop *)

(** The loop touches neither [total] nor [userAgent], sends no request, and
    only adds to the trace. *)
Lemma copy_loop_frame w rs lb le s r s' :
  copy_loop w rs lb le s = (r, s') ->
  total (d s') = total (d s) /\ userAgent (d s') = userAgent (d s) /\
  exists evs, trace s' = trace s ++ evs /\ total_values evs = [] /\ sent evs = [].
Proof.
  revert s. induction rs as [|b rs IH]; intros s H.
  - rewrite copy_loop_nil in H. destruct le.
    + injection H as _ <-. simpl. repeat split. eexists. split; [reflexivity|].
      split; reflexivity.
    + injection H as _ <-. repeat split. exists []. rewrite app_nil_r.
      repeat split.
  - rewrite copy_loop_cons in H.
    destruct (Write_fault w (nwrites s)) as [[n e]|].
    + injection H as _ <-. simpl. repeat split. eexists. split; [reflexivity|].
      split; reflexivity.
    + apply IH in H. destruct H as (Ht & Hu & evs & Htr & Hv & Hs).
      simpl in *. repeat split; [exact Ht|exact Hu|].
      eexists. rewrite Htr, <- (assoc_L (++)). split; [reflexivity|].
      unfold total_values, sent in *. simpl. split; assumption.
Qed.

(** A loop that ends without error has read up to [io.EOF] and has written
    every chunk in full. *)
Lemma copy_loop_ok w rs lb le s s' :
  copy_loop w rs lb le s = (inr tt, s') ->
  le = io_EOF /\
  dst s' = file_write (dst s) (concat rs ++ lb) /\
  progress (d s') = uint (progress (d s) + Z.of_nat (length (concat rs ++ lb))).
Proof.
  revert s. induction rs as [|b rs IH]; intros s H.
  - rewrite copy_loop_nil in H. destruct le; [|discriminate].
    unfold chunk_state, written in H.
    destruct (Write_fault w (nwrites s)) as [[n e]|]; [discriminate|].
    injection H as <-. simpl. rewrite uint_add_uint. repeat split.
  - rewrite copy_loop_cons in H. unfold chunk_state, written in H.
    destruct (Write_fault w (nwrites s)) as [[n e]|]; [discriminate|].
    apply IH in H. destruct H as (-> & Hd & Hp). simpl in *.
    split; [reflexivity|]. split.
    + rewrite Hd, file_write_app, (assoc_L (++)). reflexivity.
    + rewrite Hp, uint_add_uint, uint_uint_add.
      rewrite <- !(assoc_L (++)), (length_app b). f_equal. lia.
Qed.

(** When the stream ends in [io.EOF] and no write fails, the loop ends
    without error. *)
Lemma copy_loop_succeeds w rs lb s :
  writes_ok w -> exists s', copy_loop w rs lb io_EOF s = (inr tt, s').
Proof.
  intros Hw. revert s. induction rs as [|b rs IH]; intros s.
  - rewrite copy_loop_nil, Hw. eauto.
  - rewrite copy_loop_cons, Hw. apply IH.
Qed.

(** The values that the loop gives to [progress]: the last one is the
    final value of the counter, and they never go down as long as the
    counter does not wrap around. *)
Lemma copy_loop_progress w rs lb le s r s' :
  copy_loop w rs lb le s = (r, s') ->
  exists evs, trace s' = trace s ++ evs /\
    last (progress (d s) :: progress_values evs) = Some (progress (d s')) /\
    (0 <= progress (d s) ->
     progress (d s) + Z.of_nat (length (concat rs ++ lb)) < uint_size ->
     Sorted Z.le (progress (d s) :: progress_values evs)).
Proof.
  revert s. induction rs as [|b rs IH]; intros s H.
  - rewrite copy_loop_nil in H. destruct le.
    + injection H as _ <-. eexists. split; [reflexivity|]. simpl.
      split; [reflexivity|]. intros H0 Hlt.
      rewrite uint_add_uint, uint_small by lia.
      repeat constructor. lia.
    + injection H as _ <-. exists []. rewrite app_nil_r. split; [reflexivity|].
      split; [reflexivity|]. intros _ _. repeat constructor.
  - rewrite copy_loop_cons in H.
    assert (Hv : 0 <= progress (d s) ->
                 progress (d s) + Z.of_nat (length (concat (b :: rs) ++ lb))
                 < uint_size ->
                 uint (progress (d s) + uint (Z.of_nat (length b)))
                 = progress (d s) + Z.of_nat (length b)).
    { simpl. rewrite <- (assoc_L (++)), length_app. intros H0 Hlt.
      rewrite uint_add_uint, uint_small by lia. reflexivity. }
    destruct (Write_fault w (nwrites s)) as [[n e]|].
    + injection H as _ <-. eexists. split; [reflexivity|]. simpl.
      split; [reflexivity|]. intros H0 Hlt.
      rewrite Hv by assumption. repeat constructor. lia.
    + apply IH in H. destruct H as (evs & Htr & Hl & Hs). simpl in Htr, Hl, Hs.
      eexists. rewrite Htr, <- (assoc_L (++)). split; [reflexivity|]. simpl.
      split; [exact Hl|]. intros H0 Hlt. specialize (Hv H0 Hlt).
      simpl in Hlt. rewrite <- (assoc_L (++)), length_app in Hlt.
      rewrite Hv in *. constructor; [apply Hs; lia|]. constructor. lia.
Qed.

(** The loop ends without error exactly when the stream ends in [io.EOF]
    and none of its writes fails. *)
Lemma copy_loop_ok_iff w rs lb le s :
  fst (copy_loop w rs lb le s) = inr tt <->
  le = io_EOF /\
  forall k, (k <= length rs)%nat -> Write_fault w (nwrites s + k) = None.
Proof.
  revert s. induction rs as [|b rs IH]; intros s.
  - rewrite copy_loop_nil. destruct le; simpl.
    + split.
      * intros H. split; [reflexivity|]. intros k Hk.
        replace (nwrites s + k)%nat with (nwrites s) by lia.
        destruct (Write_fault w (nwrites s)) as [[n e]|]; [discriminate|reflexivity].
      * intros [_ H]. specialize (H 0%nat (Nat.le_refl _)).
        rewrite Nat.add_0_r in H. rewrite H. reflexivity.
    + split; [discriminate|]. intros [H _]. discriminate.
  - rewrite copy_loop_cons.
    destruct (Write_fault w (nwrites s)) as [[n e]|] eqn:Hw; simpl.
    + split; [discriminate|]. intros [_ H].
      specialize (H 0%nat (Nat.le_0_l _)). rewrite Nat.add_0_r in H. congruence.
    + rewrite IH. simpl. split; intros [-> H]; (split; [reflexivity|]); intros k Hk.
      * destruct k as [|k]; [rewrite Nat.add_0_r; exact Hw|].
        replace (nwrites s + S k)%nat with (S (nwrites s + k)) by lia.
        apply H. lia.
      * replace (S (nwrites s + k))%nat with (nwrites s + S k)%nat by lia.
        apply H. lia.
Qed.

(** ** The claims about [Download] *)

Lemma Size_nonneg f : 0 <= Size f.
Proof. unfold Size. lia. Qed.

(** C8: during one call of [Download], the values given to the progress
    counter, from the reset to 0 on, never go down (so neither does what
    [Progress()] returns), and the last of them is the final value of
    [Progress()]; this holds for every run, failed or not, as long as the
    size of the destination plus the bytes of the body stay below [2^64],
    the point where the counter would wrap around. *)
Theorem Download_progress_non_decreasing w src x f :
  (forall req resp, Do w req = inr resp ->
     Size f + body_length (Body resp) < uint_size) ->
  let s' := snd (run w src x f) in
  Sorted Z.le (progress_values (trace s')) /\
  (Seek_start w = None ->
   exists vs, progress_values (trace s') = 0 :: vs /\
              last (0 :: vs) = Some (Progress (d s'))).
Proof.
  intros Hb s'. subst s'. unfold run. rewrite Download_eq, prepare_eq.
  pose proof (Size_nonneg f) as Hf.
  destruct (Seek_start w) as [e|]; simpl.
  { split; [constructor|discriminate]. }
  destruct (NewRequest w) as [e|]; simpl.
  { split; [repeat constructor|]. intros _. exists []. split; reflexivity. }
  destruct (resumes w _); rewrite transfer_eq.
  - destruct (Do w (range_request _ _ _)) as [e|resp] eqn:HD; simpl.
    + split.
      * repeat constructor. apply uint_range.
      * intros _. eexists. split; reflexivity.
    + specialize (Hb _ _ HD). unfold body_length, body_bytes in Hb.
      destruct (copy_loop w _ _ _ _) as [r s'] eqn:HL. simpl.
      assert (HS : uint (Size f) = Size f) by (apply uint_small; lia).
      destruct (copy_loop_progress _ _ _ _ _ _ _ HL) as (evs & Htr & Hl & Hs).
      simpl in Htr, Hl, Hs. rewrite HS in *.
      rewrite Htr. simpl. split.
      * constructor; [apply Hs; lia|]. constructor. lia.
      * intros _. eexists. split; [reflexivity|]. exact Hl.
  - destruct (Do w (plain_request _ _)) as [e|resp] eqn:HD; simpl.
    + split; [repeat constructor|]. intros _. eexists. split; reflexivity.
    + specialize (Hb _ _ HD). unfold body_length, body_bytes in Hb.
      destruct (copy_loop w _ _ _ _) as [r s'] eqn:HL. simpl.
      destruct (copy_loop_progress _ _ _ _ _ _ _ HL) as (evs & Htr & Hl & Hs).
      simpl in Htr, Hl, Hs.
      rewrite Htr. simpl. split.
      * apply Hs; lia.
      * intros _. eexists. split; [reflexivity|]. exact Hl.
Qed.

(** What [prepare] leaves behind. *)
Lemma prepare_state w src x f req s1 :
  prepare w src (start x f) = (inr req, s1) ->
  total (d s1) = total x /\ data (dst s1) = data f /\ nwrites s1 = 0%nat /\
  total_values (trace s1) = [] /\ writes (trace s1) = [] /\
  (req = plain_request (userAgent x) src /\ progress (d s1) = 0 /\
     pos (dst s1) = 0%nat \/
   req = range_request (userAgent x) src (Size f) /\
     progress (d s1) = uint (Size f) /\ pos (dst s1) = length (data f)).
Proof.
  rewrite prepare_eq. intros H.
  destruct (Seek_start w); [discriminate|].
  destruct (NewRequest w); [discriminate|]. simpl in H.
  destruct (resumes w _); injection H as <- <-; simpl; repeat split; auto.
Qed.

Lemma total_values_app t1 t2 :
  total_values (t1 ++ t2) = total_values t1 ++ total_values t2.
Proof. apply omap_app. Qed.

(** The shape of the trace of a run whose GET is answered: [total] is
    assigned once, right after the GET is sent. *)
Lemma Download_trace_total w src x f req s1 resp :
  prepare w src (start x f) = (inr req, s1) -> Do w req = inr resp ->
  let s' := snd (run w src x f) in
  let v := uint (progress (d s1) + uint (ContentLength resp)) in
  exists post,
    trace s' = trace s1 ++ Sent req :: SetTotal v :: post /\
    total_values post = [] /\ total (d s') = v /\
    total_values (trace s') = [v].
Proof.
  intros HP HD. unfold run. rewrite Download_eq, HP, transfer_eq, HD.
  destruct (prepare_state _ _ _ _ _ _ HP) as (_ & _ & _ & Htv & _).
  destruct (copy_loop w _ _ _ _) as [r s'] eqn:HL. simpl.
  destruct (copy_loop_frame _ _ _ _ _ _ _ HL)
    as (Htot & _ & evs & Htr & Hev & _).
  simpl in Htot, Htr. rewrite <- (assoc_L (++)) in Htr. simpl in Htr.
  exists evs. split; [exact Htr|]. split; [exact Hev|]. split; [exact Htot|].
  rewrite Htr, total_values_app, Htv. simpl.
  change (omap _ evs) with (total_values evs). rewrite Hev. reflexivity.
Qed.

(** C6: in every run of [Download] the total is assigned at most once, and
    not at all when no GET is answered; when the GET is answered, it is
    assigned exactly once, right after the GET is sent and before any byte
    is written, to the progress counter at the start of the GET plus
    [uint(resp.ContentLength)] (in [uint] arithmetic), and it keeps that
    value until the call returns. *)
Theorem Download_total_set_once w src x f :
  let s' := snd (run w src x f) in
  (length (total_values (trace s')) <= 1)%nat /\
  (total_values (trace s') = [] -> Total (d s') = Total x) /\
  (forall req s1 resp,
     prepare w src (start x f) = (inr req, s1) -> Do w req = inr resp ->
     let v := uint (progress (d s1) + uint (ContentLength resp)) in
     exists post,
       trace s' = trace s1 ++ Sent req :: SetTotal v :: post /\
       total_values (trace s1) = [] /\ writes (trace s1) = [] /\
       total_values post = [] /\ Total (d s') = v /\
       (0 <= ContentLength resp ->
        progress (d s1) + ContentLength resp < uint_size ->
        v = progress (d s1) + ContentLength resp)).
Proof.
  intros s'. split; [|split].
  - subst s'. unfold run. rewrite Download_eq.
    destruct (prepare w src (start x f)) as [[e|req] s1] eqn:HP.
    + simpl. rewrite prepare_eq in HP.
      destruct (Seek_start w); [injection HP as _ <-; simpl; lia|].
      destruct (NewRequest w); [injection HP as _ <-; simpl; lia|].
      simpl in HP. destruct (resumes w _); discriminate.
    + destruct (Do w req) as [e|resp] eqn:HD.
      * rewrite transfer_eq, HD. simpl.
        destruct (prepare_state _ _ _ _ _ _ HP) as (_ & _ & _ & Htv & _).
        rewrite total_values_app, Htv. simpl. lia.
      * destruct (Download_trace_total _ _ _ _ _ _ _ HP HD) as (_ & _ & _ & _ & H).
        unfold run in H. rewrite Download_eq, HP in H. rewrite H. simpl. lia.
  - subst s'. unfold run. rewrite Download_eq.
    destruct (prepare w src (start x f)) as [[e|req] s1] eqn:HP.
    + simpl. intros _. rewrite prepare_eq in HP.
      destruct (Seek_start w); [injection HP as _ <-; reflexivity|].
      destruct (NewRequest w); [injection HP as _ <-; reflexivity|].
      simpl in HP. destruct (resumes w _); discriminate.
    + destruct (Do w req) as [e|resp] eqn:HD.
      * rewrite transfer_eq, HD. simpl. intros _.
        destruct (prepare_state _ _ _ _ _ _ HP) as (Ht & _). exact Ht.
      * destruct (Download_trace_total _ _ _ _ _ _ _ HP HD) as (_ & _ & _ & _ & H).
        unfold run in H. rewrite Download_eq, HP in H. rewrite H. discriminate.
  - intros req s1 resp HP HD v.
    destruct (prepare_state _ _ _ _ _ _ HP) as (_ & _ & _ & Htv & Hwr & Hpr).
    destruct (Download_trace_total _ _ _ _ _ _ _ HP HD)
      as (post & Htr & Hpost & Ht & _).
    exists post. do 5 (split; [assumption|]).
    intros Hc Hlt. subst v.
    assert (H0 : 0 <= progress (d s1)).
    { destruct Hpr as [(_ & -> & _)|(_ & -> & _)]; [lia|apply uint_range]. }
    rewrite uint_add_uint. apply uint_small. lia.
Qed.

(** C9: when the GET is answered with a content length of -1 (unknown),
    [uint(resp.ContentLength)] is [2^64 - 1] and the total becomes the
    progress counter at the start of the GET plus [2^64 - 1] modulo [2^64],
    that is the progress counter minus one in [uint] arithmetic. *)
Theorem Download_unknown_length w src x f req s1 resp :
  prepare w src (start x f) = (inr req, s1) ->
  Do w req = inr resp ->
  ContentLength resp = -1 ->
  let s' := snd (run w src x f) in
  uint (ContentLength resp) = 2 ^ 64 - 1 /\
  Total (d s') = (progress (d s1) + (2 ^ 64 - 1)) mod 2 ^ 64 /\
  Total (d s') = uint (progress (d s1) - 1) /\
  total_values (trace s') = [Total (d s')].
Proof.
  intros HP HD HC s'.
  destruct (Download_trace_total _ _ _ _ _ _ _ HP HD) as (post & _ & _ & Ht & Htv).
  fold s' in Ht, Htv. unfold Total. rewrite Htv, Ht, HC.
  split; [reflexivity|]. split; [reflexivity|]. split; [|reflexivity].
  unfold uint, uint_size. rewrite Zplus_mod_idemp_r.
  replace (progress (d s1) + -1) with (progress (d s1) - 1) by lia.
  reflexivity.
Qed.

(** A transfer that ends without error. *)
Lemma transfer_ok w req s s' :
  transfer w req s = (inr tt, s') ->
  exists resp, Do w req = inr resp /\ last_err (Body resp) = io_EOF /\
    dst s' = file_write (dst s) (body_bytes (Body resp)) /\
    progress (d s')
    = uint (progress (d s) + body_length (Body resp)) /\
    total (d s') = uint (progress (d s) + uint (ContentLength resp)).
Proof.
  rewrite transfer_eq. destruct (Do w req) as [e|resp]; [discriminate|].
  intros HL. exists resp. split; [reflexivity|].
  destruct (copy_loop_frame _ _ _ _ _ _ _ HL) as (Ht & _).
  apply copy_loop_ok in HL. destruct HL as (He & Hd & Hp).
  repeat split; assumption.
Qed.

Lemma transfer_succeeds w req s resp :
  Do w req = inr resp -> last_err (Body resp) = io_EOF -> writes_ok w ->
  exists s', transfer w req s = (inr tt, s').
Proof.
  intros HD He Hw. rewrite transfer_eq, HD, He. apply copy_loop_succeeds, Hw.
Qed.

Lemma resumes_true w req presp :
  Do w req = inr presp -> is_2xx (StatusCode presp) = true ->
  Header_Get presp "Accept-Ranges" = "bytes" ->
  Stat w = None -> Seek_end w = None -> resumes w req = true.
Proof.
  unfold resumes. intros -> -> -> -> ->. reflexivity.
Qed.

Lemma resumes_false w req :
  match Do w req with
  | inl _ => True
  | inr presp =>
      is_2xx (StatusCode presp) = false
      \/ Header_Get presp "Accept-Ranges" <> "bytes"
  end -> resumes w req = false.
Proof.
  unfold resumes. destruct (Do w req) as [e|presp]; [reflexivity|].
  intros [-> | H]; [reflexivity|].
  destruct (String.eqb_spec (Header_Get presp "Accept-Ranges") "bytes");
    [contradiction|].
  rewrite andb_false_r. reflexivity.
Qed.

(** The trace of a transfer: the request, then, when it is answered, the
    assignment of [total] and the loop, which sends nothing. *)
Lemma transfer_trace w req s :
  exists post, trace (snd (transfer w req s)) = trace s ++ Sent req :: post /\
               sent post = [].
Proof.
  rewrite transfer_eq. destruct (Do w req) as [e|resp].
  - exists []. split; reflexivity.
  - destruct (copy_loop w _ _ _ _) as [r s'] eqn:HL. simpl.
    destruct (copy_loop_frame _ _ _ _ _ _ _ HL) as (_ & _ & evs & Htr & _ & Hs).
    simpl in Htr. rewrite <- (assoc_L (++)) in Htr. simpl in Htr.
    eexists. split; [exact Htr|]. exact Hs.
Qed.

(** C3: when the probe is answered with a 2xx status and
    [Accept-Ranges: bytes], and [Stat] and the seek to the end succeed, on a
    destination that holds [Size f] bytes: the GET carries the header
    [Range: bytes=<Size f>-], the progress counter is set to [Size f] before
    the GET is sent, and, when the body is read to [io.EOF] and written, the
    body is appended to the bytes the destination held, [Progress()] ending
    at the size of the destination. *)
Theorem Download_resumes w src x f presp :
  Seek_start w = None -> NewRequest w = None ->
  Do w (head_request (userAgent x) src) = inr presp ->
  is_2xx (StatusCode presp) = true ->
  Header_Get presp "Accept-Ranges" = "bytes" ->
  Stat w = None -> Seek_end w = None ->
  Size f < uint_size ->
  let greq := range_request (userAgent x) src (Size f) in
  let s' := snd (run w src x f) in
  Method greq = "GET" /\
  ReqHeader greq !! "Range" = Some (Sprintf_bytes (Size f)) /\
  (exists post,
     trace s' = [SetProgress 0; Sent (head_request (userAgent x) src);
                 SetProgress (Size f); Sent greq] ++ post /\
     sent post = []) /\
  (forall resp,
     Do w greq = inr resp -> last_err (Body resp) = io_EOF -> writes_ok w ->
     Size f + body_length (Body resp) < uint_size ->
     fst (run w src x f) = inr tt /\
     data (dst s') = data f ++ body_bytes (Body resp) /\
     Size (dst s') = Size f + body_length (Body resp) /\
     Progress (d s')
     = Size f + body_length (Body resp)).
Proof.
  intros HS HN HD H2 HA HSt HSe Hf greq s'.
  pose proof (Size_nonneg f) as Hf0.
  assert (HU : uint (Size f) = Size f) by (apply uint_small; lia).
  assert (HR : run w src x f
               = transfer w greq
                   (resumed_state (head_request (userAgent x) src) (start x f))).
  { unfold run. rewrite Download_eq, prepare_eq, HS, HN. simpl.
    rewrite (resumes_true _ _ _ HD H2 HA HSt HSe). reflexivity. }
  split; [reflexivity|]. split.
  { unfold greq, range_request, Header_Set. simpl. apply lookup_insert_eq. }
  split.
  - destruct (transfer_trace w greq
                (resumed_state (head_request (userAgent x) src) (start x f)))
      as (post & Htr & Hs).
    exists post. subst s'. rewrite HR, Htr. simpl. rewrite HU. split; [reflexivity|exact Hs].
  - intros resp HG He Hw Hlt. unfold body_length in *.
    destruct (transfer_succeeds w greq
                (resumed_state (head_request (userAgent x) src) (start x f))
                resp HG He Hw) as (s2 & Ht).
    subst s'. rewrite HR, Ht. simpl. split; [reflexivity|].
    destruct (transfer_ok _ _ _ _ Ht) as (resp' & HG' & _ & Hd & Hp & _).
    rewrite HG in HG'. injection HG' as <-.
    simpl in Hd, Hp. rewrite HU in Hp.
    assert (Hdata : data (dst s2) = data f ++ body_bytes (Body resp)).
    { rewrite Hd. unfold file_write. simpl. apply store_end. }
    split; [exact Hdata|]. split.
    + unfold Size. rewrite Hdata, length_app. unfold Size in *. lia.
    + unfold Progress. rewrite Hp. apply uint_small. lia.
Qed.

Lemma prepare_ok_iff w src x f :
  (exists s1, prepare w src (start x f) = (inr (get_request w src x f), s1)) <->
  Seek_start w = None /\ NewRequest w = None.
Proof.
  rewrite prepare_eq. unfold get_request.
  destruct (Seek_start w); [split; [intros [? [=]]|intros [[=] _]]|].
  destruct (NewRequest w); [split; [intros [? [=]]|intros [_ [=]]]|].
  simpl. destruct (resumes w _); (split; [split; reflexivity|eauto]).
Qed.

(** C2, amended: [Download] returns nil exactly when the first seek and
    the construction of the request succeed, the GET is answered (whatever
    its status code), the body is read to [io.EOF] and no write fails.  The
    status code of the answer to the GET plays no part. *)
Theorem Download_returns_nil_iff w src x f :
  fst (run w src x f) = inr tt <->
  Seek_start w = None /\ NewRequest w = None /\
  exists resp,
    Do w (get_request w src x f) = inr resp /\
    last_err (Body resp) = io_EOF /\
    forall k, (k <= length (reads (Body resp)))%nat -> Write_fault w k = None.
Proof.
  unfold run. rewrite Download_eq, prepare_eq. unfold get_request.
  destruct (Seek_start w) as [e|]; [split; [discriminate|intros [[=] _]]|].
  destruct (NewRequest w) as [e|]; [split; [discriminate|intros (_ & [=] & _)]|].
  simpl.
  assert (H : forall req s, nwrites s = 0%nat ->
            fst (transfer w req s) = inr tt <->
            exists resp, Do w req = inr resp /\ last_err (Body resp) = io_EOF /\
              forall k, (k <= length (reads (Body resp)))%nat ->
                        Write_fault w k = None).
  { intros req s Hn. rewrite transfer_eq.
    destruct (Do w req) as [e|resp].
    - split; [discriminate|]. intros (? & [=] & _).
    - rewrite copy_loop_ok_iff. simpl. rewrite Hn. simpl. split.
      + intros [He Hw]. exists resp. auto.
      + intros (resp' & [= <-] & He & Hw). auto. }
  destruct (resumes w _); rewrite H by reflexivity; tauto.
Qed.


End Download.

(** ** The claims about [Download] on concrete transfers *)

Section DownloadExamples.

Ltac by_computation := vm_compute; reflexivity.

Lemma Download_progress_non_decreasing_witness :
  Sorted Z.le (progress_values (trace (snd (run range_server url packer partial_file))))
  /\ progress_values (trace (snd (run range_server url packer partial_file)))
     = [0; 4096; 8192; 10000].
Proof.
  split; [|by_computation].
  apply (Download_progress_non_decreasing range_server url packer partial_file).
  intros req resp H. unfold range_server, no_faults in H. simpl in H.
  destruct (String.eqb (Method req) "HEAD");
    [|destruct (decide (ReqHeader req !! "Range" = Some "bytes=4096-"))];
    injection H as <-; by_computation.
Defined.

Lemma Download_total_set_once_witness :
  total_values (trace (snd (run range_server url packer partial_file))) = [10000]
  /\ Total (d (snd (run range_server url packer partial_file))) = 10000.
Proof.
  destruct (Download_total_set_once range_server url packer partial_file)
    as (_ & _ & H).
  destruct (H (range_request "packer" url 4096)
              (resumed_state (head_request "packer" url) (start packer partial_file))
              {| StatusCode := 206; Header := ∅; ContentLength := 5904;
                 Body := eof_body [chunk 4096] (chunk 1808) |}
              ltac:(by_computation) ltac:(by_computation))
    as (post & Htr & _ & _ & Hpost & Ht & Hsum).
  split; [by_computation|].
  rewrite Ht, Hsum; [by_computation|vm_compute; discriminate|by_computation].
Defined.

Lemma Download_unknown_length_witness :
  Total (d (snd (run chunked_server url packer empty_file)))
  = 18446744073709551615
  /\ Progress (d (snd (run chunked_server url packer empty_file))) = 3.
Proof.
  destruct (Download_unknown_length chunked_server url packer empty_file
              (plain_request "packer" url)
              (fresh_state (head_request "packer" url) (start packer empty_file))
              chunked_response ltac:(by_computation) ltac:(by_computation)
              ltac:(by_computation))
    as (_ & Ht & _).
  split; [exact Ht|by_computation].
Defined.

Lemma Download_resumes_witness :
  ReqHeader (range_request "packer" url 4096) !! "Range" = Some "bytes=4096-"
  /\ fst (run range_server url packer partial_file) = inr tt
  /\ Size (dst (snd (run range_server url packer partial_file))) = 10000
  /\ Progress (d (snd (run range_server url packer partial_file))) = 10000.
Proof.
  destruct (Download_resumes range_server url packer partial_file
              {| StatusCode := 200; Header := {[ "Accept-Ranges" := "bytes" ]};
                 ContentLength := 10000; Body := eof_body [] [] |}
              ltac:(by_computation) ltac:(by_computation) ltac:(by_computation)
              ltac:(by_computation) ltac:(by_computation) ltac:(by_computation)
              ltac:(by_computation) ltac:(by_computation))
    as (_ & HR & _ & H).
  destruct (H {| StatusCode := 206; Header := ∅; ContentLength := 5904;
                 Body := eof_body [chunk 4096] (chunk 1808) |}
              ltac:(by_computation) ltac:(by_computation)
              (fun _ => eq_refl) ltac:(by_computation))
    as (Hok & _ & Hsize & Hprog).
  split; [exact HR|]. split; [exact Hok|]. split; [exact Hsize|exact Hprog].
Defined.

(** C2, as stated, fails: the GET is answered 404, and [Download] returns
    nil after writing the error page to the destination. *)
Lemma Download_404_returns_nil :
  Do not_found_server (get_request not_found_server url packer empty_file)
  = inr not_found_page
  /\ is_2xx (StatusCode not_found_page) = false
  /\ fst (run not_found_server url packer empty_file) = inr tt
  /\ data (dst (snd (run not_found_server url packer empty_file))) = chunk 9.
Proof. repeat split; by_computation. Qed.

Lemma Download_returns_nil_iff_witness :
  fst (run not_found_server url packer empty_file) = inr tt.
Proof.
  apply (Download_returns_nil_iff not_found_server url packer empty_file).
  split; [reflexivity|]. split; [reflexivity|].
  exists not_found_page. split; [by_computation|]. split; [reflexivity|].
  intros k _. reflexivity.
Defined.



End DownloadExamples.

(** * Properties of the float64 arithmetic of [PercentProgress] *)

Section Float64.

(** ** Rounding to binary64 *)

Lemma iter_pos_nat {A} (f : A -> A) p x :
  SpecFloat.iter_pos f p x = Nat.iter (Pos.to_nat p) f x.
Proof.
  revert x. induction p as [p IH|p IH|]; intros x; cbn [SpecFloat.iter_pos].
  - rewrite !IH, Pos2Nat.inj_xI.
    replace (S (2 * Pos.to_nat p)) with (Pos.to_nat p + S (Pos.to_nat p))%nat by lia.
    rewrite Nat.iter_add, Nat.iter_succ_r. reflexivity.
  - rewrite !IH, Pos2Nat.inj_xO.
    replace (2 * Pos.to_nat p)%nat with (Pos.to_nat p + Pos.to_nat p)%nat by lia.
    rewrite Nat.iter_add. reflexivity.
  - reflexivity.
Qed.

Lemma shr_1_m r : 0 <= shr_m r -> shr_m (shr_1 r) = shr_m r / 2.
Proof.
  destruct r as [m rb sb]. simpl. intros Hm.
  destruct m as [|p|p]; [reflexivity| |lia].
  destruct p as [p|p|]; simpl.
  - rewrite Pos2Z.inj_xI. apply (Z.div_unique _ _ _ 1); lia.
  - rewrite Pos2Z.inj_xO. apply (Z.div_unique _ _ _ 0); lia.
  - reflexivity.
Qed.

Lemma shr_1_r r : 0 <= shr_m r -> shr_r (shr_1 r) = Z.odd (shr_m r).
Proof.
  destruct r as [m rb sb]. simpl. intros Hm.
  destruct m as [|p|p]; [reflexivity| |lia].
  destruct p as [p|p|]; reflexivity.
Qed.

Lemma shr_1_s r : shr_s (shr_1 r) = inexact r.
Proof.
  destruct r as [m rb sb]. unfold inexact. simpl.
  destruct m as [|p|p]; [reflexivity| |]; destruct p; reflexivity.
Qed.

(** Shifting keeps a mantissa below a bound that is a multiple of the power
    of two it is shifted by, strictly when bits have been lost. *)
Lemma shr_iter_le (k : nat) r c :
  0 <= shr_m r -> shr_m r <= c * 2 ^ Z.of_nat k ->
  (inexact r = true -> shr_m r < c * 2 ^ Z.of_nat k) ->
  let r' := Nat.iter k shr_1 r in
  0 <= shr_m r' /\ shr_m r' = shr_m r / 2 ^ Z.of_nat k /\ shr_m r' <= c /\
  (inexact r' = true -> shr_m r' < c).
Proof.
  revert r c. induction k as [|k IH]; intros r c H0 Hle Hlt r'.
  - subst r'. change (Z.of_nat 0) with 0 in *.
    rewrite Z.pow_0_r, Z.mul_1_r in *. simpl. rewrite Z.div_1_r.
    repeat split; auto with zarith.
  - subst r'. rewrite Nat.iter_succ_r.
    rewrite Nat2Z.inj_succ, Z.pow_succ_r in Hle, Hlt by lia.
    assert (H1 : 0 <= shr_m (shr_1 r)).
    { rewrite shr_1_m by exact H0. apply Z.div_pos; lia. }
    assert (Hodd := Z.div_mod (shr_m r) 2 ltac:(lia)).
    assert (Hbit := Zmod_odd (shr_m r)).
    destruct (IH (shr_1 r) c H1) as (IH0 & IHm & IHle & IHlt).
    + rewrite shr_1_m by exact H0.
      destruct (Z.odd (shr_m r)); nia.
    + unfold inexact at 1. rewrite shr_1_r, shr_1_s, shr_1_m by exact H0.
      intros Hi. apply orb_true_iff in Hi.
      destruct Hi as [Hi|Hi].
      * rewrite Hi in Hbit. nia.
      * specialize (Hlt Hi). destruct (Z.odd (shr_m r)); nia.
    + split; [exact IH0|]. split; [|split; assumption].
      rewrite IHm, shr_1_m by exact H0.
      rewrite Nat2Z.inj_succ, Z.pow_succ_r by lia.
      rewrite Z.div_div by lia. reflexivity.
Qed.

Lemma digits2_pos_bound p :
  2 ^ (Z.pos (digits2_pos p) - 1) <= Z.pos p < 2 ^ Z.pos (digits2_pos p).
Proof.
  induction p as [p IH|p IH|]; cbn [digits2_pos].
  - rewrite Pos2Z.inj_succ, Pos2Z.inj_xI.
    replace (Z.succ (Z.pos (digits2_pos p)) - 1)
      with (Z.succ (Z.pos (digits2_pos p) - 1)) by lia.
    rewrite !Z.pow_succ_r by lia.
    destruct IH as [IH1 IH2]. revert IH1 IH2.
    generalize (2 ^ (Z.pos (digits2_pos p) - 1)) (2 ^ Z.pos (digits2_pos p)). lia.
  - rewrite Pos2Z.inj_succ, (Pos2Z.inj_xO p).
    replace (Z.succ (Z.pos (digits2_pos p)) - 1)
      with (Z.succ (Z.pos (digits2_pos p) - 1)) by lia.
    rewrite !Z.pow_succ_r by lia.
    destruct IH as [IH1 IH2]. revert IH1 IH2.
    generalize (2 ^ (Z.pos (digits2_pos p) - 1)) (2 ^ Z.pos (digits2_pos p)). lia.
  - simpl. lia.
Qed.

Lemma Zdigits2_nonneg x : 0 <= Zdigits2 x.
Proof. destruct x; simpl; lia. Qed.

Lemma Zdigits2_bound x :
  0 < x -> 2 ^ (Zdigits2 x - 1) <= x < 2 ^ Zdigits2 x.
Proof. destruct x as [|p|p]; try lia. intros _. apply digits2_pos_bound. Qed.

Lemma Zdigits2_le x k : 0 <= x -> 0 <= k -> x < 2 ^ k -> Zdigits2 x <= k.
Proof.
  intros Hx Hk Hlt. destruct (Z.eq_dec x 0) as [->|Hne]; [exact Hk|].
  destruct (Zdigits2_bound x ltac:(lia)) as [Hlo _].
  destruct (Z_le_gt_dec (Zdigits2 x) k) as [|Hgt]; [assumption|].
  assert (2 ^ k <= 2 ^ (Zdigits2 x - 1)) by (apply Z.pow_le_mono_r; lia).
  lia.
Qed.

Lemma Zdigits2_ge x k : 0 <= k -> 2 ^ k <= x -> k + 1 <= Zdigits2 x.
Proof.
  intros Hk Hle. assert (0 < 2 ^ k) by (apply Z.pow_pos_nonneg; lia).
  destruct (Zdigits2_bound x ltac:(lia)) as [_ Hhi].
  destruct (Z_le_gt_dec (k + 1) (Zdigits2 x)) as [|Hgt]; [assumption|].
  assert (2 ^ Zdigits2 x <= 2 ^ k)
    by (apply Z.pow_le_mono_r; [lia|pose proof (Zdigits2_nonneg x); lia]).
  lia.
Qed.

(** The shift of [shr], with its two cases. *)
Lemma shr_le r e n c :
  0 <= shr_m r -> shr_m r <= c * 2 ^ Z.max n 0 ->
  (inexact r = true -> shr_m r < c * 2 ^ Z.max n 0) ->
  let '(r', e') := shr r e n in
  e' = e + Z.max n 0 /\ 0 <= shr_m r' /\
  shr_m r' = shr_m r / 2 ^ Z.max n 0 /\ shr_m r' <= c /\
  (inexact r' = true -> shr_m r' < c).
Proof.
  intros H0 Hle Hlt. unfold shr. destruct n as [|p|p].
  - simpl in *. rewrite Z.mul_1_r in *. rewrite Z.add_0_r, Z.div_1_r. auto.
  - rewrite iter_pos_nat.
    replace (Z.max (Z.pos p) 0) with (Z.of_nat (Pos.to_nat p)) in * by lia.
    destruct (shr_iter_le (Pos.to_nat p) r c H0 Hle Hlt) as (A & B & C & D).
    split; [lia|]. auto.
  - replace (Z.max (Z.neg p) 0) with 0 in * by lia.
    simpl in *. rewrite Z.mul_1_r in *. rewrite Z.add_0_r, Z.div_1_r. auto.
Qed.

Lemma inexact_record_of_loc m l :
  inexact (shr_record_of_loc m l) = true <-> l <> loc_Exact.
Proof.
  destruct l as [|[| |]]; unfold inexact; simpl; split; congruence.
Qed.

Lemma shr_m_record_of_loc m l : shr_m (shr_record_of_loc m l) = m.
Proof. destruct l as [|[| |]]; reflexivity. Qed.

Lemma loc_of_shr_record_exact r :
  loc_of_shr_record r = loc_Exact <-> inexact r = false.
Proof.
  destruct r as [m [|] [|]]; unfold inexact; simpl; split; congruence.
Qed.

Lemma round_nearest_even_le m l c :
  m <= c -> (l <> loc_Exact -> m < c) ->
  m <= round_nearest_even m l <= c.
Proof.
  intros Hle Hlt. destruct l as [|[| |]]; simpl; try lia.
  - specialize (Hlt ltac:(discriminate)). destruct (Z.even m); lia.
  - specialize (Hlt ltac:(discriminate)). lia.
Qed.

Lemma fexp64_eq e : fexp64 e = Z.max (e - 53) (-1074).
Proof. reflexivity. Qed.

(** Rounding does not go past a bound that the format represents. *)
Lemma binary_round_aux_le mx ex lx mb eb :
  0 <= mx -> 0 < mb ->
  fexp64 (Zdigits2 mb + eb) <= eb -> eb <= 971 ->
  ex <= eb -> fexp64 (Zdigits2 mx + ex) <= eb ->
  mx <= mb * 2 ^ (eb - ex) ->
  (lx <> loc_Exact -> mx < mb * 2 ^ (eb - ex)) ->
  float_le (binary_round_aux f64_prec f64_emax false mx ex lx) mb eb.
Proof.
  intros Hmx Hmb Hcan Hmax Hex Hfx Hle Hlt.
  unfold binary_round_aux, shr_fexp.
  change (fexp f64_prec f64_emax) with fexp64.
  set (n := fexp64 (Zdigits2 mx + ex) - ex).
  assert (Hsplit : eb - ex = (eb - (ex + Z.max n 0)) + Z.max n 0) by lia.
  assert (He1 : 0 <= eb - (ex + Z.max n 0)) by (unfold n; lia).
  pose proof (shr_le (shr_record_of_loc mx lx) ex n (mb * 2 ^ (eb - (ex + Z.max n 0)))) as H1.
  rewrite shr_m_record_of_loc in H1.
  rewrite <- Z.mul_assoc, <- Z.pow_add_r, <- Hsplit in H1 by lia.
  specialize (H1 Hmx Hle).
  destruct (shr (shr_record_of_loc mx lx) ex n) as [r1 e1].
  destruct H1 as (He1' & Hr1 & _ & Hr1le & Hr1lt).
  { intros Hi. apply Hlt. apply inexact_record_of_loc in Hi. exact Hi. }
  subst e1.
  set (e1 := ex + Z.max n 0) in *.
  set (m2 := round_nearest_even (shr_m r1) (loc_of_shr_record r1)).
  assert (Hm2 : shr_m r1 <= m2 <= mb * 2 ^ (eb - e1)).
  { apply round_nearest_even_le; [exact Hr1le|].
    intros Hne. apply Hr1lt. destruct (inexact r1) eqn:Hi; [reflexivity|].
    apply loc_of_shr_record_exact in Hi. contradiction. }
  set (n2 := fexp64 (Zdigits2 m2 + e1) - e1).
  assert (Hd2 : Zdigits2 m2 + e1 <= Zdigits2 mb + eb).
  { destruct (Zdigits2_bound mb Hmb) as [_ Hhi].
    assert (m2 < 2 ^ (Zdigits2 mb + (eb - e1))).
    { rewrite Z.pow_add_r by (pose proof (Zdigits2_nonneg mb); lia).
      assert (0 < 2 ^ (eb - e1)) by (apply Z.pow_pos_nonneg; lia). nia. }
    pose proof (Zdigits2_nonneg mb).
    pose proof (Zdigits2_le m2 (Zdigits2 mb + (eb - e1)) ltac:(lia) ltac:(lia) H).
    lia. }
  assert (Hn2 : e1 + Z.max n2 0 <= eb).
  { unfold n2. rewrite fexp64_eq in *. lia. }
  assert (Hsplit2 : eb - e1 = (eb - (e1 + Z.max n2 0)) + Z.max n2 0) by lia.
  pose proof (shr_le (shr_record_of_loc m2 loc_Exact) e1 n2
                (mb * 2 ^ (eb - (e1 + Z.max n2 0)))) as H2.
  rewrite shr_m_record_of_loc in H2.
  rewrite <- Z.mul_assoc, <- Z.pow_add_r, <- Hsplit2 in H2 by lia.
  specialize (H2 ltac:(lia) ltac:(lia)).
  destruct (shr (shr_record_of_loc m2 loc_Exact) e1 n2) as [r3 e3].
  destruct H2 as (He3 & Hr3 & _ & Hr3le & _).
  { intros Hi. apply inexact_record_of_loc in Hi. congruence. }
  subst e3.
  destruct (shr_m r3) as [|m3|m3] eqn:Hm3; [exact I| |lia].
  replace (e1 + Z.max n2 0 <=? f64_emax - f64_prec) with true
    by (symmetry; apply Z.leb_le; unfold f64_emax, f64_prec; lia).
  simpl. split; [exact Hn2|exact Hr3le].
Qed.

Lemma new_location_exact nb k : new_location nb k = loc_Exact <-> k = 0.
Proof.
  unfold new_location, new_location_even, new_location_odd.
  destruct (Z.even nb); destruct (Z.eqb_spec k 0); split; congruence.
Qed.

(** The quotient of two positive floats, the first at most the second, is
    at most 1. *)
Lemma f64_div_le_one m1 e1 m2 e2 :
  -52 <= e1 -> -52 <= e2 ->
  Z.pos m1 * 2 ^ (e1 + 52) <= Z.pos m2 * 2 ^ (e2 + 52) ->
  float_le (f64_div (S754_finite false m1 e1) (S754_finite false m2 e2))
    (2 ^ 52) (-52).
Proof.
  intros He1 He2 Hle. unfold f64_div, SFdiv, SFdiv_core_binary.
  change (fexp f64_prec f64_emax) with fexp64.
  set (d1 := Zdigits2 (Z.pos m1)). set (d2 := Zdigits2 (Z.pos m2)).
  set (e' := Z.min (fexp64 (d1 + e1 - (d2 + e2))) (e1 - e2)).
  set (s := e1 - e2 - e').
  destruct (Zdigits2_bound (Z.pos m1) ltac:(lia)) as [Hd1 _].
  destruct (Zdigits2_bound (Z.pos m2) ltac:(lia)) as [_ Hd2].
  fold d1 in Hd1. fold d2 in Hd2.
  assert (Hd1p : 1 <= d1) by (unfold d1; simpl; lia).
  assert (Hd2p : 1 <= d2) by (unfold d2; simpl; lia).
  assert (HD : d1 + e1 <= d2 + e2).
  { assert (2 ^ (d1 - 1 + (e1 + 52)) < 2 ^ (d2 + (e2 + 52))).
    { rewrite (Z.pow_add_r 2 (d1 - 1)), (Z.pow_add_r 2 d2) by lia.
      assert (0 < 2 ^ (e1 + 52)) by (apply Z.pow_pos_nonneg; lia).
      assert (0 < 2 ^ (e2 + 52)) by (apply Z.pow_pos_nonneg; lia).
      apply Z.le_lt_trans with (Z.pos m1 * 2 ^ (e1 + 52));
        [apply Z.mul_le_mono_nonneg_r; lia|].
      apply Z.le_lt_trans with (Z.pos m2 * 2 ^ (e2 + 52)); [exact Hle|].
      apply Z.mul_lt_mono_pos_r; lia. }
    apply Z.pow_lt_mono_r_iff in H; lia. }
  assert (He' : e' <= -53) by (unfold e'; rewrite fexp64_eq; lia).
  assert (Hs : 0 <= s) by (unfold s, e'; lia).
  set (m' := match s with
             | 0 => Z.pos m1
             | Z.pos _ => Z.shiftl (Z.pos m1) s
             | Z.neg _ => 0
             end).
  assert (Hm' : m' = Z.pos m1 * 2 ^ s).
  { unfold m'. destruct s; [simpl; lia|apply Z.shiftl_mul_pow2; lia|lia]. }
  assert (Hkey : m' <= Z.pos m2 * 2 ^ (- e')).
  { rewrite Hm'.
    apply (Z.mul_le_mono_pos_r _ _ (2 ^ (e2 + 52)));
      [apply Z.pow_pos_nonneg; lia|].
    assert (E1 : 2 ^ s * 2 ^ (e2 + 52) = 2 ^ (e1 + 52) * 2 ^ (- e')).
    { rewrite <- !Z.pow_add_r by lia. f_equal. unfold s. lia. }
    replace (Z.pos m1 * 2 ^ s * 2 ^ (e2 + 52))
      with (Z.pos m1 * 2 ^ (e1 + 52) * 2 ^ (- e'))
      by (rewrite <- !Z.mul_assoc, E1; reflexivity).
    replace (Z.pos m2 * 2 ^ (- e') * 2 ^ (e2 + 52))
      with (Z.pos m2 * 2 ^ (e2 + 52) * 2 ^ (- e')) by ring.
    apply Z.mul_le_mono_nonneg_r; [apply Z.pow_nonneg; lia|exact Hle]. }
  pose proof (Z_div_mod m' (Z.pos m2) ltac:(lia)) as Hdm.
  destruct (Z.div_eucl m' (Z.pos m2)) as [q r].
  destruct Hdm as [Hq Hr].
  assert (H2e : 0 < 2 ^ (- e')) by (apply Z.pow_pos_nonneg; lia).
  assert (Hq0 : 0 <= q) by nia.
  assert (Hqle : q <= 2 ^ (- e')) by nia.
  assert (Hpow : 2 ^ 52 * 2 ^ (-52 - e') = 2 ^ (- e')).
  { rewrite <- Z.pow_add_r by lia. f_equal. lia. }
  apply binary_round_aux_le;
    [exact Hq0|lia|vm_compute; discriminate|lia|lia| | |].
  - rewrite fexp64_eq.
    assert (q < 2 ^ (- e' + 1)) by (rewrite Z.pow_add_r by lia; lia).
    pose proof (Zdigits2_le q (- e' + 1) Hq0 ltac:(lia) H). lia.
  - rewrite Hpow. exact Hqle.
  - intros Hne. rewrite Hpow.
    assert (r <> 0) by (intros ->; apply Hne, new_location_exact; reflexivity).
    nia.
Qed.

(** A float that is at most 1, multiplied by 100, is at most 100. *)
Lemma f64_mul_100_le f :
  float_le f (2 ^ 52) (-52) ->
  float_le (f64_mul f (float64 100)) 7036874417766400 (-46).
Proof.
  change (float64 100) with (S754_finite false 7036874417766400 (-46)).
  destruct f as [sg|sg| |sg m e]; simpl; try contradiction; [exact id|].
  destruct sg; [contradiction|]. intros [He Hm].
  assert (Hpow : 2 ^ 52 * 2 ^ (-52 - e) = 2 ^ (- e)).
  { rewrite <- Z.pow_add_r by lia. f_equal. lia. }
  rewrite Hpow in Hm.
  assert (H2e : 0 < 2 ^ (- e)) by (apply Z.pow_pos_nonneg; lia).
  unfold f64_mul, SFmul. simpl xorb.
  rewrite Pos2Z.inj_mul.
  apply binary_round_aux_le;
    [lia|lia|vm_compute; discriminate|lia|lia| | |].
  - rewrite fexp64_eq.
    assert (Z.pos m * 7036874417766400 < 2 ^ (53 - e)).
    { replace (53 - e) with (53 + - e) by lia. rewrite Z.pow_add_r by lia.
      change (2 ^ 53) with 9007199254740992. nia. }
    pose proof (Zdigits2_le (Z.pos m * 7036874417766400) (53 - e) ltac:(lia) ltac:(lia) H). lia.
  - replace (-46 - (e + -46)) with (- e) by lia. nia.
  - intros H. contradiction.
Qed.

(** The conversion to [int] of a float that is at most 100. *)
Lemma int_of_float64_le_100 a f :
  float_le f 7036874417766400 (-46) -> 0 <= int_of_float64 a f <= 100.
Proof.
  destruct f as [sg|sg| |sg m e]; simpl; try contradiction; [lia|].
  destruct sg; [contradiction|]. intros [He Hm].
  unfold f64_trunc, SpecFloat.cond_Zopp.
  replace (Z.max e 0) with 0 by lia. replace (Z.max (- e) 0) with (- e) by lia.
  rewrite Z.pow_0_r, Z.mul_1_r.
  assert (H2e : 0 < 2 ^ (- e)) by (apply Z.pow_pos_nonneg; lia).
  rewrite Z.quot_div_nonneg by lia.
  assert (Hm' : Z.pos m <= 2 ^ (- e) * 100).
  { replace (- e) with (46 + (-46 - e)) by lia. rewrite Z.pow_add_r by lia.
    change (2 ^ 46) with 70368744177664.
    change 7036874417766400 with (70368744177664 * 100) in Hm. lia. }
  assert (Hv : 0 <= Z.pos m / 2 ^ (- e) <= 100).
  { split; [apply Z.div_pos; lia|].
    apply Z.div_le_upper_bound; [exact H2e|exact Hm']. }
  replace ((min_int64 <=? Z.pos m / 2 ^ (- e))
           && (Z.pos m / 2 ^ (- e) <=? max_int64)) with true; [exact Hv|].
  symmetry. apply andb_true_iff. unfold min_int64, max_int64.
  split; apply Z.leb_le; lia.
Qed.

(** ** The conversion of an integer to binary64 *)

Lemma binary_round_aux_finish mx ex lx :
  binary_round_aux f64_prec f64_emax false mx ex lx =
  let '(r, e) := shr_fexp f64_prec f64_emax mx ex lx in
  finish (round_nearest_even (shr_m r) (loc_of_shr_record r)) e.
Proof.
  unfold binary_round_aux, finish.
  destruct (shr_fexp f64_prec f64_emax mx ex lx) as [r e]. reflexivity.
Qed.

Lemma Zdigits2_53 m : 2 ^ 52 <= m < 2 ^ 53 -> Zdigits2 m = 53.
Proof.
  intros [Hlo Hhi].
  pose proof (Zdigits2_le m 53 ltac:(lia) ltac:(lia) Hhi).
  pose proof (Zdigits2_ge m 52 ltac:(lia) Hlo). lia.
Qed.

Lemma finish_53 p e :
  2 ^ 52 <= Z.pos p < 2 ^ 53 -> -1021 <= e <= 971 ->
  finish (Z.pos p) e = S754_finite false p e.
Proof.
  intros Hp He. unfold finish, shr_fexp.
  rewrite (Zdigits2_53 _ Hp).
  change (fexp f64_prec f64_emax) with fexp64. rewrite fexp64_eq.
  replace (Z.max (53 + e - 53) (-1074) - e) with 0 by lia.
  simpl. replace (e <=? f64_emax - f64_prec) with true; [reflexivity|].
  symmetry. apply Z.leb_le. unfold f64_emax, f64_prec. lia.
Qed.

Lemma finish_2p53 e :
  -1021 <= e <= 970 ->
  finish (2 ^ 53) e = S754_finite false (2 ^ 52) (e + 1).
Proof.
  intros He. unfold finish, shr_fexp.
  change (Zdigits2 (2 ^ 53)) with 54.
  change (fexp f64_prec f64_emax) with fexp64. rewrite fexp64_eq.
  replace (Z.max (54 + e - 53) (-1074) - e) with 1 by lia.
  simpl. replace (e + 1 <=? f64_emax - f64_prec) with true; [reflexivity|].
  symmetry. apply Z.leb_le. unfold f64_emax, f64_prec. lia.
Qed.

(** The bits that [s] shifts of an exact mantissa leave in the record. *)
Lemma shr_iter_exact (k : nat) m :
  0 <= m ->
  let r := Nat.iter (S k) shr_1 (Build_shr_record m false false) in
  shr_m r = m / 2 ^ Z.of_nat (S k) /\
  shr_r r = Z.odd (m / 2 ^ Z.of_nat k) /\
  shr_s r = negb (m mod 2 ^ Z.of_nat k =? 0).
Proof.
  intros Hm. induction k as [|k IH].
  - cbv zeta. rewrite Nat.iter_succ. change (Nat.iter 0 shr_1 ?x) with x.
    rewrite shr_1_m, shr_1_r, shr_1_s by exact Hm.
    simpl. rewrite Z.div_1_r, Z.mod_1_r. repeat split.
  - remember (S k) as k1. cbv zeta in *. rewrite Nat.iter_succ.
    destruct IH as (IHm & IHr & IHs).
    set (r := Nat.iter k1 shr_1 (Build_shr_record m false false)) in *.
    assert (H2k : 0 < 2 ^ Z.of_nat k) by (apply Z.pow_pos_nonneg; lia).
    assert (Hk1 : 2 ^ Z.of_nat k1 = 2 ^ Z.of_nat k * 2).
    { subst k1. rewrite Nat2Z.inj_succ, Z.pow_succ_r by lia. lia. }
    assert (Hr0 : 0 <= shr_m r) by (rewrite IHm; apply Z.div_pos; lia).
    rewrite shr_1_m, shr_1_r, shr_1_s by exact Hr0.
    split; [|split].
    + rewrite IHm, Z.div_div by lia.
      rewrite (Nat2Z.inj_succ k1), Z.pow_succ_r by lia.
      f_equal. lia.
    + rewrite IHm. reflexivity.
    + unfold inexact. rewrite IHr, IHs, Hk1.
      rewrite Z.rem_mul_r by lia.
      rewrite (Zmod_odd (m / 2 ^ Z.of_nat k)).
      pose proof (Z.mod_pos_bound m (2 ^ Z.of_nat k) H2k) as Hb.
      destruct (Z.odd (m / 2 ^ Z.of_nat k));
        destruct (Z.eqb_spec (m mod 2 ^ Z.of_nat k) 0) as [E|E]; simpl;
        symmetry.
      * apply negb_true_iff, Z.eqb_neq. lia.
      * apply negb_true_iff, Z.eqb_neq. lia.
      * apply negb_false_iff, Z.eqb_eq. lia.
      * apply negb_true_iff, Z.eqb_neq. lia.
Qed.

Lemma shr_exact m e s :
  0 <= m -> 0 < s ->
  exists r, shr (Build_shr_record m false false) e s = (r, e + s) /\
    shr_m r = m / 2 ^ s /\ shr_r r = Z.odd (m / 2 ^ (s - 1)) /\
    shr_s r = negb (m mod 2 ^ (s - 1) =? 0).
Proof.
  intros Hm Hs. destruct s as [|p|p]; try lia.
  unfold shr. rewrite iter_pos_nat. eexists. split; [reflexivity|].
  destruct (Pos.to_nat p) as [|k] eqn:Hk; [lia|].
  destruct (shr_iter_exact k m Hm) as (A & B & C).
  replace (Z.pos p) with (Z.of_nat (S k)) by lia.
  replace (Z.of_nat (S k) - 1) with (Z.of_nat k) by lia.
  auto.
Qed.

Lemma round_nearest_even_round_up r n s :
  shr_m r = n / 2 ^ s -> shr_r r = Z.odd (n / 2 ^ (s - 1)) ->
  shr_s r = negb (n mod 2 ^ (s - 1) =? 0) ->
  round_nearest_even (shr_m r) (loc_of_shr_record r)
  = n / 2 ^ s + round_up n s.
Proof.
  destruct r as [m rb sb]. simpl. intros Hm Hr Hs. unfold round_up.
  rewrite <- Hr, <- Hs, <- Hm.
  destruct rb, sb; simpl; try lia.
  rewrite <- Z.negb_odd. destruct (Z.odd m); simpl; lia.
Qed.

Lemma iter_xO p k : Z.pos (Pos.iter xO p k) = Z.pos p * 2 ^ Z.pos k.
Proof.
  rewrite Pos2Nat.inj_iter.
  replace (Z.pos k) with (Z.of_nat (Pos.to_nat k)) by lia.
  induction (Pos.to_nat k) as [|n IH]; simpl nat_rect.
  - simpl. lia.
  - rewrite Pos2Z.inj_xO, IH, Nat2Z.inj_succ, Z.pow_succ_r by lia. ring.
Qed.

Lemma shl_align_spec mx ex ex' :
  let '(mz, ez) := shl_align mx ex ex' in
  ez = Z.min ex ex' /\ Z.pos mz = Z.pos mx * 2 ^ (ex - ez).
Proof.
  unfold shl_align. destruct (ex' - ex) as [|k|k] eqn:Hk.
  - replace (Z.min ex ex') with ex by lia. rewrite Z.sub_diag. simpl. lia.
  - replace (Z.min ex ex') with ex by lia. rewrite Z.sub_diag. simpl. lia.
  - replace (Z.min ex ex') with ex' by lia. split; [reflexivity|].
    rewrite iter_xO. f_equal. f_equal. lia.
Qed.

(** [float64(n)] is a positive float whose value is [n] rounded to 53
    bits. *)
Lemma float64_value n :
  0 < n < 2 ^ 64 ->
  exists m e, float64 n = S754_finite false m e /\ -52 <= e /\
    Z.pos m * 2 ^ (e + 52) = nearest53 n * 2 ^ 52.
Proof.
  intros [Hn0 Hn64]. destruct n as [|p|p]; try lia.
  unfold float64, binary_normalize, binary_round, nearest53.
  change (fexp f64_prec f64_emax) with fexp64. rewrite fexp64_eq.
  change (Z.pos (digits2_pos p)) with (Zdigits2 (Z.pos p)).
  set (dg := Zdigits2 (Z.pos p)).
  destruct (Zdigits2_bound (Z.pos p) Hn0) as [Hlo Hhi]. fold dg in Hlo, Hhi.
  assert (Hdg1 : 1 <= dg) by (unfold dg; simpl; lia).
  assert (Hdg64 : dg <= 64).
  { apply Zdigits2_le; lia. }
  pose proof (shl_align_spec p 0 (Z.max (dg + 0 - 53) (-1074))) as Hal.
  destruct (shl_align p 0 (Z.max (dg + 0 - 53) (-1074))) as [mz ez].
  destruct Hal as [Hez Hmz].
  destruct (Z.leb_spec dg 53) as [Hd|Hd].
  - (* at most 53 bits: the conversion is exact *)
    assert (Hez' : ez = dg - 53) by lia. clear Hez. subst ez.
    replace (0 - (dg - 53)) with (53 - dg) in Hmz by lia.
    assert (Hmzb : 2 ^ 52 <= Z.pos mz < 2 ^ 53).
    { assert (E52 : 2 ^ 52 = 2 ^ (dg - 1) * 2 ^ (53 - dg))
        by (rewrite <- Z.pow_add_r by lia; f_equal; lia).
      assert (E53 : 2 ^ 53 = 2 ^ dg * 2 ^ (53 - dg))
        by (rewrite <- Z.pow_add_r by lia; f_equal; lia).
      rewrite Hmz, E52, E53.
      assert (0 < 2 ^ (53 - dg)) by (apply Z.pow_pos_nonneg; lia).
      split; [apply Z.mul_le_mono_nonneg_r; lia|].
      apply Z.mul_lt_mono_pos_r; lia. }
    exists mz, (dg - 53). split.
    + rewrite binary_round_aux_finish. unfold shr_fexp.
      rewrite (Zdigits2_53 _ Hmzb).
      change (fexp f64_prec f64_emax) with fexp64. rewrite fexp64_eq.
      replace (Z.max (53 + (dg - 53) - 53) (-1074) - (dg - 53)) with 0 by lia.
      simpl. apply finish_53; [exact Hmzb|lia].
    + split; [lia|]. rewrite Hmz, <- Z.mul_assoc, <- Z.pow_add_r by lia.
      f_equal. f_equal. lia.
  - (* more than 53 bits: the low bits are rounded away *)
    assert (Hez' : ez = 0) by lia. clear Hez. subst ez.
    rewrite Z.sub_diag, Z.pow_0_r, Z.mul_1_r in Hmz.
    injection Hmz as ->.
    set (s := dg - 53).
    assert (Hs : 1 <= s <= 11) by (unfold s; lia).
    set (n := Z.pos p) in *.
    assert (Hq : 2 ^ 52 <= n / 2 ^ s < 2 ^ 53).
    { assert (H2s : 0 < 2 ^ s) by (apply Z.pow_pos_nonneg; lia).
      split.
      - apply Z.div_le_lower_bound; [exact H2s|].
        rewrite Z.mul_comm, <- Z.pow_add_r by lia.
        replace (52 + s) with (dg - 1) by (unfold s; lia). exact Hlo.
      - apply Z.div_lt_upper_bound; [exact H2s|].
        rewrite <- Z.pow_add_r by lia.
        replace (s + 53) with dg by (unfold s; lia). exact Hhi. }
    rewrite binary_round_aux_finish. unfold shr_fexp.
    change (fexp f64_prec f64_emax) with fexp64. rewrite fexp64_eq.
    fold dg. replace (Z.max (dg + 0 - 53) (-1074) - 0) with s by (unfold s; lia).
    destruct (shr_exact n 0 s ltac:(lia) ltac:(lia)) as (r & Hshr & Hm & Hr & Hsb).
    change (shr_record_of_loc n loc_Exact) with (Build_shr_record n false false).
    rewrite Hshr, (round_nearest_even_round_up r n s Hm Hr Hsb).
    simpl (0 + s).
    assert (Hc : round_up n s = 0 \/ round_up n s = 1).
    { unfold round_up. destruct (_ && _); auto. }
    destruct (Z.eq_dec (n / 2 ^ s + round_up n s) (2 ^ 53)) as [E|E].
    + rewrite E, finish_2p53 by lia.
      exists (2 ^ 52)%positive, (s + 1). split; [reflexivity|]. split; [lia|].
      replace (s + 1 + 52) with (1 + s + 52) by lia.
      rewrite !Z.pow_add_r by lia.
      change (Z.pos (2 ^ 52)) with (2 ^ 52). change (2 ^ 53) with (2 ^ 52 * 2 ^ 1).
      ring.
    + assert (Hb : 2 ^ 52 <= n / 2 ^ s + round_up n s < 2 ^ 53) by lia.
      destruct (n / 2 ^ s + round_up n s) as [|m2|m2] eqn:Hm2; try lia.
      rewrite finish_53 by (try exact Hb; lia).
      exists m2, s. split; [reflexivity|]. split; [lia|].
      rewrite Z.pow_add_r by lia. ring.
Qed.

Lemma Zdigits2_mono a b : 0 < a <= b -> Zdigits2 a <= Zdigits2 b.
Proof.
  intros [Ha Hab]. destruct (Zdigits2_bound b ltac:(lia)) as [_ Hhi].
  apply Zdigits2_le; [lia|apply Zdigits2_nonneg|lia].
Qed.

(** A number cut at bit [s]: the quotient, the bit below it, the rest. *)
Lemma split_at_bit n s :
  0 <= n -> 1 <= s ->
  n = n / 2 ^ s * (2 * 2 ^ (s - 1))
      + (if Z.odd (n / 2 ^ (s - 1)) then 2 ^ (s - 1) else 0)
      + n mod 2 ^ (s - 1)
  /\ 0 <= n mod 2 ^ (s - 1) < 2 ^ (s - 1).
Proof.
  intros Hn Hs.
  assert (Hh : 0 < 2 ^ (s - 1)) by (apply Z.pow_pos_nonneg; lia).
  split; [|apply Z.mod_pos_bound; exact Hh].
  assert (E : 2 ^ s = 2 ^ (s - 1) * 2).
  { replace s with (Z.succ (s - 1)) at 1 by lia.
    rewrite Z.pow_succ_r by lia. ring. }
  rewrite E, <- Z.div_div by lia.
  pose proof (Z.div_mod n (2 ^ (s - 1)) ltac:(lia)) as H1.
  pose proof (Z.div_mod (n / 2 ^ (s - 1)) 2 ltac:(lia)) as H2.
  rewrite (Zmod_odd (n / 2 ^ (s - 1))) in H2.
  destruct (Z.odd (n / 2 ^ (s - 1))); nia.
Qed.

Lemma round_up_mono n1 n2 s :
  0 <= n1 <= n2 -> 1 <= s -> n1 / 2 ^ s = n2 / 2 ^ s ->
  round_up n1 s <= round_up n2 s.
Proof.
  intros Hn Hs Hq.
  destruct (split_at_bit n1 s ltac:(lia) Hs) as [E1 B1].
  destruct (split_at_bit n2 s ltac:(lia) Hs) as [E2 B2].
  unfold round_up. rewrite <- Hq. rewrite <- Hq in E2.
  assert (Hh : 0 < 2 ^ (s - 1)) by (apply Z.pow_pos_nonneg; lia).
  destruct (Z.odd (n1 / 2 ^ (s - 1))); simpl; [|destruct (_ && _); lia].
  destruct (Z.odd (n2 / 2 ^ (s - 1))); [|nia].
  destruct (Z.odd (n1 / 2 ^ s)); [rewrite !orb_true_r; simpl; lia|].
  rewrite !orb_false_r.
  destruct (Z.eqb_spec (n1 mod 2 ^ (s - 1)) 0); simpl;
    [destruct (negb _); lia|].
  destruct (Z.eqb_spec (n2 mod 2 ^ (s - 1)) 0); simpl; [nia|lia].
Qed.

Lemma round_up_range n s : 0 <= round_up n s <= 1.
Proof. unfold round_up. destruct (_ && _); lia. Qed.

(** Rounding to 53 bits is monotone. *)
Lemma nearest53_mono n1 n2 : 0 < n1 <= n2 -> nearest53 n1 <= nearest53 n2.
Proof.
  intros Hn. unfold nearest53.
  pose proof (Zdigits2_mono n1 n2 Hn) as Hd.
  destruct (Zdigits2_bound n1 ltac:(lia)) as [Hlo1 Hhi1].
  destruct (Zdigits2_bound n2 ltac:(lia)) as [Hlo2 Hhi2].
  set (d1 := Zdigits2 n1) in *. set (d2 := Zdigits2 n2) in *.
  pose proof (round_up_range n1 (d1 - 53)) as Hc1.
  pose proof (round_up_range n2 (d2 - 53)) as Hc2.
  assert (Hq : forall n dg, 53 < dg -> 2 ^ (dg - 1) <= n < 2 ^ dg ->
             2 ^ 52 <= n / 2 ^ (dg - 53) < 2 ^ 53).
  { intros n dg Hdg [Hlo Hhi].
    assert (H2s : 0 < 2 ^ (dg - 53)) by (apply Z.pow_pos_nonneg; lia).
    split.
    - apply Z.div_le_lower_bound; [exact H2s|].
      rewrite Z.mul_comm, <- Z.pow_add_r by lia.
      replace (52 + (dg - 53)) with (dg - 1) by lia. exact Hlo.
    - apply Z.div_lt_upper_bound; [exact H2s|].
      rewrite <- Z.pow_add_r by lia.
      replace (dg - 53 + 53) with dg by lia. exact Hhi. }
  destruct (Z.leb_spec d1 53) as [H1|H1]; destruct (Z.leb_spec d2 53) as [H2|H2];
    try lia.
  - (* only the second is rounded *)
    specialize (Hq n2 d2 H2 (conj Hlo2 Hhi2)).
    assert (H2s : 2 <= 2 ^ (d2 - 53)).
    { change 2 with (2 ^ 1) at 1. apply Z.pow_le_mono_r; lia. }
    assert (n1 < 2 ^ 53).
    { apply Z.lt_le_trans with (2 ^ d1); [exact Hhi1|].
      apply Z.pow_le_mono_r; lia. }
    change (2 ^ 53) with 9007199254740992 in *.
    change (2 ^ 52) with 4503599627370496 in *. nia.
  - (* both are rounded *)
    pose proof (Hq n1 d1 H1 (conj Hlo1 Hhi1)) as Hq1.
    pose proof (Hq n2 d2 H2 (conj Hlo2 Hhi2)) as Hq2.
    destruct (Z.eq_dec d1 d2) as [E|E].
    + rewrite <- E in *. set (s := d1 - 53) in *.
      assert (H2s : 0 < 2 ^ s) by (apply Z.pow_pos_nonneg; unfold s; lia).
      apply Z.mul_le_mono_nonneg_r; [lia|].
      assert (Hdiv : n1 / 2 ^ s <= n2 / 2 ^ s)
        by (apply Z.div_le_mono; lia).
      destruct (Z.eq_dec (n1 / 2 ^ s) (n2 / 2 ^ s)) as [Eq|Eq]; [|lia].
      pose proof (round_up_mono n1 n2 s ltac:(lia) ltac:(unfold s; lia) Eq).
      lia.
    + assert (Hs : 2 ^ (d1 - 53) * 2 <= 2 ^ (d2 - 53)).
      { rewrite Z.mul_comm, <- (Z.pow_succ_r 2 (d1 - 53)) by lia.
        apply Z.pow_le_mono_r; lia. }
      assert (H2s : 0 < 2 ^ (d1 - 53)) by (apply Z.pow_pos_nonneg; lia).
      change (2 ^ 53) with (4503599627370496 * 2) in *.
      change (2 ^ 52) with 4503599627370496 in *. nia.
Qed.

End Float64.

(** * [PercentProgress] *)

Section Percent.

(** The percentage of two counters, the first at most the second. *)
Lemma percent_range a p t :
  0 <= p <= t -> 0 < t < 2 ^ 64 ->
  0 <= int_of_float64 a
         (f64_mul (f64_div (float64 p) (float64 t)) (float64 100)) <= 100.
Proof.
  intros Hp Ht.
  apply int_of_float64_le_100, f64_mul_100_le.
  destruct (float64_value t Ht) as (mt & et & -> & Het & Hvt).
  destruct (Z.eq_dec p 0) as [->|Hp0].
  - exact I.
  - destruct (float64_value p ltac:(lia)) as (mp & ep & -> & Hep & Hvp).
    apply f64_div_le_one; [exact Hep|exact Het|].
    rewrite Hvp, Hvt. apply Z.mul_le_mono_nonneg_r; [lia|].
    apply nearest53_mono. lia.
Qed.

(** C1, amended: [PercentProgress] returns -1 when no downloader is active;
    when one is, with a total above 0 and a progress of at most the total
    (both of them [uint] values), it returns an integer between 0 and 100,
    on every architecture. *)
Theorem PercentProgress_range a h dc :
  (downloader dc = None -> PercentProgress a h dc = Some (-1)) /\
  (forall x p t,
     downloader dc = Some x ->
     Downloader_Progress h x = Some p -> Downloader_Total h x = Some t ->
     0 <= p <= t -> 0 < t < uint_size ->
     exists v, PercentProgress a h dc = Some v /\ 0 <= v <= 100).
Proof.
  split.
  - apply PercentProgress_nil.
  - intros x p t Hx Hp Ht Hpt Ht64. unfold PercentProgress.
    rewrite Hx, Hp, Ht. simpl. eexists. split; [reflexivity|].
    apply percent_range; assumption.
Qed.

Lemma PercentProgress_range_witness :
  PercentProgress amd64 (active_heap 4096 10000) active_client = Some 40
  /\ PercentProgress arm64 (active_heap 10000 10000) active_client = Some 100.
Proof.
  split.
  - destruct (PercentProgress_range amd64 (active_heap 4096 10000) active_client)
      as [_ H].
    destruct (H (HTTPDownloaderPtr 1%positive) 4096 10000
                eq_refl ltac:(vm_compute; reflexivity)
                ltac:(vm_compute; reflexivity)
                ltac:(lia) ltac:(unfold uint_size; lia)) as (v & Hv & _).
    rewrite Hv. vm_compute in Hv. exact (eq_sym Hv).
  - vm_compute. reflexivity.
Defined.

(** C1, as stated, fails: with a progress above the total the result is
    above 100; with a total of 0, as it is between the resume offset being
    set and the GET being answered, the result is what the processor makes
    of an infinity. *)
Lemma PercentProgress_out_of_range :
  PercentProgress amd64 (active_heap 200 100) active_client = Some 200
  /\ PercentProgress arm64 (active_heap 200 100) active_client = Some 200
  /\ PercentProgress amd64 (active_heap 4096 0) active_client
     = Some (-9223372036854775808)
  /\ PercentProgress arm64 (active_heap 4096 0) active_client
     = Some 9223372036854775807
  /\ PercentProgress amd64 (active_heap 0 0) active_client
     = Some (-9223372036854775808).
Proof. vm_compute. repeat split. Qed.

End Percent.

(** * Further properties of the HTTP downloader *)

Section DownloadMore.

Implicit Types (w : World) (s : State) (x : HTTPDownloader) (f : File).

(** ** More on the loop *)

Lemma store_nil old p : (p <= length old)%nat -> store old p [] = old.
Proof.
  intros Hp. unfold store. replace (p - length old)%nat with 0%nat by lia.
  simpl. rewrite Nat.add_0_r. apply take_drop.
Qed.

Lemma writes_app t1 t2 : writes (t1 ++ t2) = writes t1 ++ writes t2.
Proof. apply omap_app. Qed.

Lemma sent_app t1 t2 : sent (t1 ++ t2) = sent t1 ++ sent t2.
Proof. apply omap_app. Qed.

Lemma length_written w k b : (length (written w k b) <= length b)%nat.
Proof.
  unfold written. destruct (Write_fault w k) as [[n e]|]; [|lia].
  rewrite length_take. lia.
Qed.

(** What the loop does to the file: the bytes of its writes, in order, are
    stored from the position it started at. *)
Lemma copy_loop_file w rs lb le s r s' :
  (pos (dst s) <= length (data (dst s)))%nat ->
  copy_loop w rs lb le s = (r, s') ->
  exists evs, trace s' = trace s ++ evs /\
    data (dst s') = store (data (dst s)) (pos (dst s)) (concat (writes evs)) /\
    pos (dst s') = (pos (dst s) + length (concat (writes evs)))%nat.
Proof.
  revert s. induction rs as [|b rs IH]; intros s Hpos H.
  - rewrite copy_loop_nil in H. destruct le.
    + injection H as _ <-. eexists. split; [reflexivity|]. simpl.
      rewrite app_nil_r. split; reflexivity.
    + injection H as _ <-. exists []. rewrite app_nil_r. simpl.
      rewrite store_nil by exact Hpos. split; [reflexivity|]. split; [reflexivity|lia].
  - rewrite copy_loop_cons in H.
    destruct (Write_fault w (nwrites s)) as [[n e]|] eqn:Hw.
    + injection H as _ <-. eexists. split; [reflexivity|]. simpl.
      rewrite app_nil_r. split; reflexivity.
    + apply IH in H.
      * destruct H as (evs & Htr & Hd & Hp). simpl in Htr, Hd, Hp.
        eexists. rewrite Htr, <- (assoc_L (++)). split; [reflexivity|]. simpl.
        rewrite Hd, Hp, store_app, length_app. split; [reflexivity|lia].
      * simpl. rewrite length_store. lia.
Qed.

(** The progress counter and the write position: the counter runs ahead
    of the position by the bytes that failed writes left out. *)
Lemma copy_loop_position w rs lb le s r s' :
  0 <= progress (d s) ->
  progress (d s) + Z.of_nat (length (concat rs ++ lb)) < uint_size ->
  copy_loop w rs lb le s = (r, s') ->
  progress (d s) - Z.of_nat (pos (dst s))
  <= progress (d s') - Z.of_nat (pos (dst s')) /\
  (writes_ok w ->
   progress (d s') - Z.of_nat (pos (dst s'))
   = progress (d s) - Z.of_nat (pos (dst s))).
Proof.
  revert s. induction rs as [|b rs IH]; intros s H0 Hlt H.
  - simpl in Hlt. rewrite copy_loop_nil in H. destruct le.
    + injection H as _ <-. simpl.
      rewrite uint_add_uint, uint_small by lia.
      pose proof (length_written w (nwrites s) lb). split; [lia|].
      intros Hw. unfold written. rewrite Hw. lia.
    + injection H as _ <-. split; [lia|reflexivity].
  - simpl in Hlt. rewrite <- (assoc_L (++)), length_app in Hlt.
    rewrite copy_loop_cons in H.
    assert (Hv : uint (progress (d s) + uint (Z.of_nat (length b)))
                 = progress (d s) + Z.of_nat (length b)).
    { rewrite uint_add_uint, uint_small by lia. reflexivity. }
    pose proof (length_written w (nwrites s) b) as Hwl.
    destruct (Write_fault w (nwrites s)) as [[n e]|] eqn:Hw.
    + injection H as _ <-. simpl. rewrite Hv. split; [lia|].
      intros Hok. rewrite Hok in Hw. discriminate.
    + apply IH in H; simpl; rewrite ?Hv; try lia.
      simpl in H. rewrite Hv in H. destruct H as [Hle Heq].
      assert (Hwb : written w (nwrites s) b = b) by (unfold written; rewrite Hw; reflexivity).
      rewrite Hwb in *. split; [lia|]. intros Hok. rewrite (Heq Hok). lia.
Qed.

(** ** Every run *)

Lemma start_offset_le w src x f :
  (start_offset w src x f <= length (data f))%nat.
Proof. unfold start_offset. destruct (resumes w _); lia. Qed.

(** The state in which the GET is sent, when the first seek and the
    construction of the request succeed. *)
Lemma prepare_ok w src x f :
  Seek_start w = None -> NewRequest w = None ->
  exists s1,
    prepare w src (start x f) = (inr (get_request w src x f), s1) /\
    data (dst s1) = data f /\ pos (dst s1) = start_offset w src x f /\
    progress (d s1) = uint (Z.of_nat (start_offset w src x f)) /\
    total (d s1) = total x /\ userAgent (d s1) = userAgent x /\
    nwrites s1 = 0%nat /\ writes (trace s1) = [] /\
    sent (trace s1) = [head_request (userAgent x) src] /\
    hd_error (progress_values (trace s1)) = Some 0.
Proof.
  intros HS HN. rewrite prepare_eq, HS, HN. unfold get_request, start_offset.
  simpl. destruct (resumes w _); eexists; (split; [reflexivity|]); simpl;
    repeat split; reflexivity.
Qed.

(** The file after a run: the bytes of the writes, stored from the start
    offset. *)
Lemma run_data w src x f :
  data (dst (snd (run w src x f)))
  = store (data f) (start_offset w src x f)
      (concat (writes (trace (snd (run w src x f))))).
Proof.
  pose proof (start_offset_le w src x f) as Hso.
  unfold run. rewrite Download_eq.
  destruct (Seek_start w) as [e|] eqn:HS.
  { rewrite prepare_eq, HS. simpl. rewrite store_nil by exact Hso. reflexivity. }
  destruct (NewRequest w) as [e|] eqn:HN.
  { rewrite prepare_eq, HS, HN. simpl. rewrite store_nil by exact Hso. reflexivity. }
  destruct (prepare_ok w src x f HS HN)
    as (s1 & -> & Hd1 & Hp1 & _ & _ & _ & _ & Hw1 & _).
  rewrite transfer_eq. destruct (Do w _) as [e|resp].
  - simpl. rewrite writes_app, Hw1, Hd1. simpl.
    rewrite store_nil by exact Hso. reflexivity.
  - destruct (copy_loop w _ _ _ _) as [r s2] eqn:HL. simpl.
    apply copy_loop_file in HL; [|simpl; rewrite Hd1, Hp1; exact Hso].
    destruct HL as (evs & Htr & Hd & _). simpl in Htr, Hd.
    rewrite Htr, !writes_app, Hw1, Hd, Hd1, Hp1. reflexivity.
Qed.

(** The run when the GET is answered: the loop, from the state that
    [prepare] and line 175 leave. *)
Lemma run_answered w src x f resp :
  Seek_start w = None -> NewRequest w = None ->
  Do w (get_request w src x f) = inr resp ->
  exists s1,
    run w src x f
    = copy_loop w (reads (Body resp)) (last_bytes (Body resp))
        (last_err (Body resp)) s1 /\
    progress (d s1) = uint (Z.of_nat (start_offset w src x f)) /\
    nwrites s1 = 0%nat /\ writes (trace s1) = [] /\
    userAgent (d s1) = userAgent x /\
    total (d s1)
    = uint (uint (Z.of_nat (start_offset w src x f)) + uint (ContentLength resp)).
Proof.
  intros HS HN HD.
  destruct (prepare_ok w src x f HS HN)
    as (s1 & HP & _ & _ & Hpr1 & _ & Hua & Hn1 & Hw1 & _).
  exists (total_state (get_request w src x f) resp s1).
  unfold run. rewrite Download_eq, HP, transfer_eq, HD. simpl.
  rewrite writes_app, Hw1, Hpr1. repeat split; assumption.
Qed.

(** X1: after every run of [Download], failed or not, the destination is
    what it was with the bytes of the writes stored from the start offset
    (the end of the file when resuming, 0 otherwise): it never shrinks, and
    the bytes before the start offset and those past the last byte written
    are the ones it held. *)
Theorem Download_file w src x f :
  let s' := snd (run w src x f) in
  let bs := concat (writes (trace s')) in
  data (dst s') = store (data f) (start_offset w src x f) bs /\
  Size f <= Size (dst s') /\
  take (start_offset w src x f) (data (dst s'))
  = take (start_offset w src x f) (data f) /\
  drop (start_offset w src x f + length bs) (data (dst s'))
  = drop (start_offset w src x f + length bs) (data f).
Proof.
  intros s' bs.
  pose proof (start_offset_le w src x f) as Hso.
  pose proof (run_data w src x f) as Hd. fold s' in Hd. fold bs in Hd.
  split; [exact Hd|]. split; [|split].
  - unfold Size. rewrite Hd, length_store. lia.
  - rewrite Hd. unfold store.
    rewrite take_app_le by (rewrite length_take; lia).
    rewrite take_take. f_equal. lia.
  - rewrite Hd. unfold store.
    replace (start_offset w src x f - length (data f))%nat with 0%nat by lia.
    simpl. rewrite (assoc_L (++)).
    rewrite drop_app_length'; [reflexivity|].
    rewrite length_app, length_take. lia.
Qed.

Lemma uint_offset w src x f :
  Size f < uint_size ->
  uint (Z.of_nat (start_offset w src x f)) = Z.of_nat (start_offset w src x f).
Proof.
  intros Hf. pose proof (start_offset_le w src x f). unfold Size in Hf.
  apply uint_small. lia.
Qed.

(** X3: after every run that got past the first seek, [Progress()] is at
    least the write position of the destination, and equal to it when no
    write failed (as long as the counter does not wrap around). *)
Theorem Download_progress_position w src x f :
  Seek_start w = None ->
  (forall req resp, Do w req = inr resp ->
     Size f + body_length (Body resp) < uint_size) ->
  Size f < uint_size ->
  let s' := snd (run w src x f) in
  Z.of_nat (pos (dst s')) <= Progress (d s') /\
  (writes_ok w -> Progress (d s') = Z.of_nat (pos (dst s'))).
Proof.
  intros HS Hb Hf s'. subst s'. unfold run. rewrite Download_eq.
  destruct (NewRequest w) as [e|] eqn:HN.
  { rewrite prepare_eq, HS, HN. simpl. split; [lia|reflexivity]. }
  destruct (prepare_ok w src x f HS HN)
    as (s1 & -> & Hd1 & Hp1 & Hpr1 & _).
  rewrite (uint_offset _ _ _ _ Hf) in Hpr1.
  pose proof (start_offset_le w src x f) as Hso.
  rewrite transfer_eq. destruct (Do w _) as [e|resp] eqn:HD.
  - simpl. unfold Progress. rewrite Hpr1, Hp1. split; [lia|reflexivity].
  - specialize (Hb _ _ HD). unfold body_length, body_bytes, Size in *.
    destruct (copy_loop w _ _ _ _) as [r s2] eqn:HL. simpl.
    apply copy_loop_position in HL; simpl; rewrite ?Hpr1; try lia.
    simpl in HL. rewrite Hpr1, Hp1 in HL. destruct HL as [Hle Heq].
    unfold Progress. split; [lia|]. intros Hw. specialize (Heq Hw). lia.
Qed.

Lemma attempted_cons b rs lb le :
  attempted {| reads := b :: rs; last_bytes := lb; last_err := le |}
  = b :: attempted {| reads := rs; last_bytes := lb; last_err := le |}.
Proof. reflexivity. Qed.

(** The loop when no write fails: every chunk is written, and the result is
    decided by the way the stream ends. *)
Lemma copy_loop_writes_ok w rs lb le s r s' :
  writes_ok w -> 0 <= progress (d s) < uint_size ->
  copy_loop w rs lb le s = (r, s') ->
  let chunks := attempted {| reads := rs; last_bytes := lb; last_err := le |} in
  r = match le with io_EOF => inr tt | e => inl e end /\
  writes (trace s') = writes (trace s) ++ chunks /\
  progress (d s') = uint (progress (d s) + Z.of_nat (length (concat chunks))).
Proof.
  intros Hw. revert s. induction rs as [|b rs IH]; intros s Hp H.
  - rewrite copy_loop_nil in H. unfold attempted. simpl. destruct le.
    + rewrite Hw in H. injection H as <- <-. simpl.
      unfold written. rewrite Hw, writes_app, uint_add_uint, app_nil_r.
      repeat split.
    + injection H as <- <-. simpl. rewrite app_nil_r, Z.add_0_r.
      rewrite uint_small by exact Hp. repeat split.
  - rewrite copy_loop_cons, Hw in H. apply IH in H; [|simpl; apply uint_range].
    cbv zeta in *. rewrite attempted_cons.
    destruct H as (Hr & Hwr & Hpr). simpl in Hwr, Hpr.
    split; [exact Hr|]. split.
    + rewrite Hwr, writes_app. simpl. unfold written. rewrite Hw.
      rewrite <- (assoc_L (++)). reflexivity.
    + rewrite Hpr, uint_add_uint, uint_uint_add. simpl concat.
      rewrite length_app. f_equal. lia.
Qed.

(** The loop when the [k]-th write is the first to fail: the chunks before
    it are written in full, of the [k]-th only what the write took; the
    progress counter has counted the [k]-th chunk in full. *)
Lemma copy_loop_write_fault w rs lb le s r s' k b n e :
  attempted {| reads := rs; last_bytes := lb; last_err := le |} !! k = Some b ->
  Write_fault w (nwrites s + k) = Some (n, e) ->
  (forall j, (j < k)%nat -> Write_fault w (nwrites s + j) = None) ->
  copy_loop w rs lb le s = (r, s') ->
  let chunks := attempted {| reads := rs; last_bytes := lb; last_err := le |} in
  r = inl e /\
  writes (trace s') = writes (trace s) ++ take k chunks ++ [take n b] /\
  progress (d s')
  = uint (progress (d s) + Z.of_nat (length (concat (take (S k) chunks)))).
Proof.
  revert s k. induction rs as [|c rs IH]; intros s k Hk Hf Hbefore H.
  - rewrite copy_loop_nil in H. unfold attempted in *. simpl in *.
    destruct le; [|rewrite lookup_nil in Hk; discriminate].
    destruct k as [|k]; [|rewrite lookup_cons, lookup_nil in Hk; discriminate].
    injection Hk as ->. rewrite Nat.add_0_r in Hf. rewrite Hf in H.
    injection H as <- <-. simpl. unfold written. rewrite Hf, writes_app.
    rewrite uint_add_uint, app_nil_r. repeat split.
  - rewrite copy_loop_cons in H. cbv zeta. rewrite attempted_cons in *.
    destruct k as [|k].
    + injection Hk as ->. rewrite Nat.add_0_r in Hf. rewrite Hf in H.
      injection H as <- <-. simpl. unfold written. rewrite Hf, writes_app.
      rewrite uint_add_uint, app_nil_r. repeat split.
    + pose proof (Hbefore 0%nat ltac:(lia)) as H0. rewrite Nat.add_0_r in H0.
      rewrite H0 in H. simpl in Hk.
      assert (Hf' : Write_fault w (nwrites (chunk_state w c s) + k) = Some (n, e)).
      { simpl. replace (S (nwrites s + k))%nat with (nwrites s + S k)%nat by lia.
        exact Hf. }
      assert (Hb' : forall j, (j < k)%nat ->
                Write_fault w (nwrites (chunk_state w c s) + j) = None).
      { intros j Hj. simpl.
        replace (S (nwrites s + j))%nat with (nwrites s + S j)%nat by lia.
        apply Hbefore. lia. }
      destruct (IH _ k Hk Hf' Hb' H) as (Hr & Hwr & Hpr). simpl in Hwr, Hpr.
      split; [exact Hr|]. split.
      * rewrite Hwr, writes_app. simpl. unfold written. rewrite H0.
        rewrite <- (assoc_L (++)). reflexivity.
      * rewrite Hpr, uint_add_uint, uint_uint_add. simpl.
        rewrite !length_app. f_equal. lia.
Qed.

(** The run when the GET is answered and no write fails. *)
Lemma run_writes_ok w src x f resp :
  Seek_start w = None -> NewRequest w = None ->
  Do w (get_request w src x f) = inr resp ->
  writes_ok w ->
  let s' := snd (run w src x f) in
  fst (run w src x f)
  = match last_err (Body resp) with io_EOF => inr tt | e => inl e end /\
  writes (trace s') = attempted (Body resp) /\
  progress (d s')
  = uint (Z.of_nat (start_offset w src x f)
          + Z.of_nat (length (concat (attempted (Body resp))))) /\
  userAgent (d s') = userAgent x /\
  total (d s')
  = uint (uint (Z.of_nat (start_offset w src x f)) + uint (ContentLength resp)).
Proof.
  intros HS HN HD Hw s'.
  destruct (run_answered w src x f resp HS HN HD)
    as (s1 & HR & Hpr1 & _ & Hw1 & Hua & Htot).
  subst s'. rewrite HR.
  destruct (copy_loop w _ _ _ s1) as [r s2] eqn:HL. simpl.
  destruct (copy_loop_frame _ _ _ _ _ _ _ HL) as (Ht & Hu & _).
  apply copy_loop_writes_ok in HL;
    [|exact Hw|rewrite Hpr1; apply uint_range].
  cbv zeta in HL. change (attempted _) with (attempted (Body resp)) in HL.
  rewrite Hw1, Hpr1, uint_uint_add in HL. simpl in HL.
  destruct HL as (-> & Hwr & Hp).
  split; [destruct (last_err (Body resp)); reflexivity|].
  split; [exact Hwr|]. split; [exact Hp|].
  split; congruence.
Qed.

(** X4: when a [Read] of the body returns an error other than [io.EOF]
    (and no write fails), [Download] returns that error; the chunks read
    before it are in the destination, from the start offset, and counted by
    [Progress()]; the bytes that came with the error are neither written
    nor counted. *)
Theorem Download_read_error w src x f resp msg :
  Seek_start w = None -> NewRequest w = None ->
  Do w (get_request w src x f) = inr resp ->
  last_err (Body resp) = Err msg ->
  writes_ok w ->
  Size f + Z.of_nat (length (concat (reads (Body resp)))) < uint_size ->
  let s' := snd (run w src x f) in
  fst (run w src x f) = inl (Err msg) /\
  writes (trace s') = reads (Body resp) /\
  data (dst s')
  = store (data f) (start_offset w src x f) (concat (reads (Body resp))) /\
  Progress (d s')
  = Z.of_nat (start_offset w src x f)
    + Z.of_nat (length (concat (reads (Body resp)))).
Proof.
  intros HS HN HD He Hw Hlt s'.
  pose proof (run_data w src x f) as Hdata. fold s' in Hdata.
  destruct (run_writes_ok w src x f resp HS HN HD Hw) as (Hr & Hwr & Hp & _).
  fold s' in Hwr, Hp. unfold attempted in Hwr, Hp.
  rewrite He, app_nil_r in Hwr, Hp. rewrite He in Hr. rewrite Hwr in Hdata.
  split; [exact Hr|]. split; [exact Hwr|]. split; [exact Hdata|].
  unfold Progress. rewrite Hp.
  pose proof (start_offset_le w src x f). unfold Size in Hlt.
  apply uint_small. lia.
Qed.

(** The write position after a run that got past the construction of the
    request. *)
Lemma run_pos w src x f :
  Seek_start w = None -> NewRequest w = None ->
  pos (dst (snd (run w src x f)))
  = (start_offset w src x f
     + length (concat (writes (trace (snd (run w src x f))))))%nat.
Proof.
  intros HS HN. pose proof (start_offset_le w src x f) as Hso.
  unfold run. rewrite Download_eq.
  destruct (prepare_ok w src x f HS HN)
    as (s1 & -> & Hd1 & Hp1 & _ & _ & _ & _ & Hw1 & _).
  rewrite transfer_eq. destruct (Do w _) as [e|resp].
  - simpl. rewrite writes_app, Hw1, Hp1. simpl. lia.
  - destruct (copy_loop w _ _ _ _) as [r s2] eqn:HL. simpl.
    apply copy_loop_file in HL; [|simpl; rewrite Hd1, Hp1; exact Hso].
    destruct HL as (evs & Htr & _ & Hp). simpl in Htr, Hp.
    rewrite Htr, !writes_app, Hw1, Hp, Hp1. reflexivity.
Qed.

Lemma length_concat_take (l : list (list byte)) k :
  (length (concat (take k l)) <= length (concat l))%nat.
Proof.
  rewrite <- (take_drop k l) at 2. rewrite concat_app, length_app. lia.
Qed.

(** X5: when the [k]-th [Write] is the first to fail, [Download] returns
    its error; the chunks before the [k]-th are written in full, of the
    [k]-th only the bytes the write took, and [Progress()] has counted the
    [k]-th chunk in full: it is ahead of the write position by the bytes
    the failed write left out. *)
Theorem Download_write_error w src x f resp k b n e :
  Seek_start w = None -> NewRequest w = None ->
  Do w (get_request w src x f) = inr resp ->
  attempted (Body resp) !! k = Some b ->
  Write_fault w k = Some (n, e) ->
  (forall j, (j < k)%nat -> Write_fault w j = None) ->
  Size f + Z.of_nat (length (concat (attempted (Body resp)))) < uint_size ->
  let s' := snd (run w src x f) in
  let before := concat (take k (attempted (Body resp))) in
  fst (run w src x f) = inl e /\
  writes (trace s') = take k (attempted (Body resp)) ++ [take n b] /\
  Progress (d s')
  = Z.of_nat (start_offset w src x f) + Z.of_nat (length before)
    + Z.of_nat (length b) /\
  Z.of_nat (pos (dst s'))
  = Z.of_nat (start_offset w src x f) + Z.of_nat (length before)
    + Z.of_nat (Nat.min n (length b)).
Proof.
  intros HS HN HD Hk Hf Hbefore Hlt s' before.
  pose proof (run_pos w src x f HS HN) as Hpos. fold s' in Hpos.
  destruct (run_answered w src x f resp HS HN HD)
    as (s1 & HR & Hpr1 & Hn1 & Hw1 & _).
  subst s'. rewrite HR in *.
  destruct (copy_loop w _ _ _ s1) as [r s2] eqn:HL. simpl in *.
  apply (copy_loop_write_fault _ _ _ _ _ _ _ k b n e) in HL;
    [|exact Hk|rewrite Hn1; exact Hf|rewrite Hn1; exact Hbefore].
  cbv zeta in HL.
  change (attempted _) with (attempted (Body resp)) in HL.
  rewrite Hw1 in HL. simpl in HL. destruct HL as (-> & Hwr & Hp).
  assert (HSk : take (S k) (attempted (Body resp))
                = take k (attempted (Body resp)) ++ [b])
    by (apply take_S_r; exact Hk).
  pose proof (length_concat_take (attempted (Body resp)) (S k)) as Hle.
  rewrite HSk, concat_app, length_app in Hle, Hp. simpl in Hle, Hp.
  rewrite app_nil_r in Hle, Hp.
  pose proof (start_offset_le w src x f) as Hso. unfold Size in Hlt.
  split; [reflexivity|]. split; [exact Hwr|]. split.
  - unfold Progress. rewrite Hp, Hpr1, uint_uint_add. subst before.
    rewrite uint_small by lia. lia.
  - rewrite Hpos, Hwr, concat_app, !length_app. simpl.
    rewrite app_nil_r, length_take. subst before. lia.
Qed.

(** Where an error of the loop comes from. *)
Lemma copy_loop_error_source w rs lb le s e :
  fst (copy_loop w rs lb le s) = inl e ->
  (le = e /\ e <> io_EOF) \/
  exists k n, (k <= length rs)%nat /\
              Write_fault w (nwrites s + k) = Some (n, e).
Proof.
  revert s. induction rs as [|b rs IH]; intros s H.
  - rewrite copy_loop_nil in H. destruct le as [|msg]; simpl in H.
    + destruct (Write_fault w (nwrites s)) as [[n e']|] eqn:Hw; [|discriminate].
      injection H as ->. right. exists 0%nat, n. rewrite Nat.add_0_r. auto.
    + injection H as <-. left. split; [reflexivity|discriminate].
  - rewrite copy_loop_cons in H.
    destruct (Write_fault w (nwrites s)) as [[n e']|] eqn:Hw; simpl in H.
    + injection H as ->. right. exists 0%nat, n. rewrite Nat.add_0_r.
      split; [lia|exact Hw].
    + apply IH in H. destruct H as [H|(k & n & Hk & Hf)]; [left; exact H|].
      right. exists (S k), n. simpl in Hf. split; [simpl; lia|].
      replace (nwrites s + S k)%nat with (S (nwrites s + k)) by lia. exact Hf.
Qed.

(** X6: an error returned by [Download] is the error of the first seek, of
    the construction of the request, of the GET, of a [Read] of the body
    (and then not [io.EOF]) or of a [Write]; no other error, the probe's
    among them, is ever returned. *)
Theorem Download_error_source w src x f e :
  fst (run w src x f) = inl e ->
  Seek_start w = Some e \/ NewRequest w = Some e \/
  Do w (get_request w src x f) = inl e \/
  exists resp, Do w (get_request w src x f) = inr resp /\
    ((last_err (Body resp) = e /\ e <> io_EOF) \/
     exists k n, (k <= length (reads (Body resp)))%nat /\
                 Write_fault w k = Some (n, e)).
Proof.
  destruct (Seek_start w) as [e0|] eqn:HS.
  { unfold run. rewrite Download_eq, prepare_eq, HS. simpl.
    intros [= ->]. left. reflexivity. }
  destruct (NewRequest w) as [e0|] eqn:HN.
  { unfold run. rewrite Download_eq, prepare_eq, HS, HN. simpl.
    intros [= ->]. right. left. reflexivity. }
  destruct (Do w (get_request w src x f)) as [e0|resp] eqn:HD.
  { destruct (prepare_ok w src x f HS HN) as (s1 & HP & _).
    unfold run. rewrite Download_eq, HP, transfer_eq, HD. simpl.
    intros [= ->]. right. right. left. reflexivity. }
  destruct (run_answered w src x f resp HS HN HD) as (s1 & -> & _ & Hn1 & _).
  intros H. apply copy_loop_error_source in H. rewrite Hn1 in H.
  right. right. right. exists resp. split; [reflexivity|exact H].
Qed.

(** The requests that a run hands to [httpClient.Do]. *)
Lemma run_sent w src x f :
  sent (trace (snd (run w src x f)))
  = match Seek_start w, NewRequest w with
    | None, None => [head_request (userAgent x) src; get_request w src x f]
    | _, _ => []
    end.
Proof.
  unfold run. rewrite Download_eq.
  destruct (Seek_start w) as [e|] eqn:HS.
  { rewrite prepare_eq, HS. reflexivity. }
  destruct (NewRequest w) as [e|] eqn:HN.
  { rewrite prepare_eq, HS, HN. reflexivity. }
  destruct (prepare_ok w src x f HS HN)
    as (s1 & -> & _ & _ & _ & _ & _ & _ & _ & Hs1 & _).
  destruct (transfer_trace w (get_request w src x f) s1) as (post & Htr & Hp).
  rewrite Htr, sent_app, Hs1. simpl.
  change (omap _ post) with (sent post). rewrite Hp. reflexivity.
Qed.

Lemma head_request_headers ua src :
  URL (head_request ua src) = src /\
  ReqHeader (head_request ua src) !! "User-Agent"
  = (if String.eqb ua "" then None else Some ua) /\
  forall k, k <> "User-Agent" -> ReqHeader (head_request ua src) !! k = None.
Proof.
  unfold head_request. destruct (String.eqb ua ""); simpl.
  - repeat split; try (intros; apply lookup_empty).
  - split; [reflexivity|]. split; [apply lookup_insert_eq|].
    intros k Hk. rewrite lookup_insert_ne by congruence. apply lookup_empty.
Qed.

Lemma get_request_headers w src x f :
  URL (get_request w src x f) = src /\
  ReqHeader (get_request w src x f) !! "User-Agent"
  = (if String.eqb (userAgent x) "" then None else Some (userAgent x)) /\
  forall k, k <> "User-Agent" -> k <> "Range" ->
            ReqHeader (get_request w src x f) !! k = None.
Proof.
  destruct (head_request_headers (userAgent x) src) as (Hurl & Hua & Hother).
  unfold get_request, range_request, plain_request.
  destruct (resumes w _); simpl.
  - split; [exact Hurl|]. split.
    + rewrite lookup_insert_ne by discriminate. exact Hua.
    + intros k Hk Hr. rewrite lookup_insert_ne by congruence. apply Hother, Hk.
  - split; [exact Hurl|]. split; [exact Hua|].
    intros k Hk _. apply Hother, Hk.
Qed.

(** On every request handed to [httpClient.Do] the [User-Agent] is the
    user agent of the downloader, when it has one. *)
Lemma sent_user_agent w src x f req :
  req ∈ sent (trace (snd (run w src x f))) ->
  ReqHeader req !! "User-Agent"
  = (if String.eqb (userAgent x) "" then None else Some (userAgent x)).
Proof.
  rewrite run_sent.
  destruct (Seek_start w); [intros H; inversion H|].
  destruct (NewRequest w); [intros H; inversion H|].
  intros Hin. apply elem_of_cons in Hin. destruct Hin as [->|Hin].
  - apply head_request_headers.
  - apply list_elem_of_singleton in Hin. subst req. apply get_request_headers.
Qed.

(** X7: [Download] does not call [httpClient.Do] when the first seek or
    the construction of the request fails, and otherwise calls it exactly
    twice: with a HEAD request, then with a GET request.  On the request
    values it hands over, both for the source URL, [Download] has set
    [User-Agent] to the user agent of the downloader when that is not
    empty, and has put no [User-Agent] when it is empty (the header is then
    left to Go's default); the only other header it sets is the [Range] of
    the GET, which the HEAD never has.  This is about the [*http.Request]
    values passed to [Do], not about what the transport adds to them or
    about the redirects it follows. *)
Theorem Download_requests w src x f :
  let s' := snd (run w src x f) in
  let ua := userAgent x in
  sent (trace s')
  = match Seek_start w, NewRequest w with
    | None, None => [head_request ua src; get_request w src x f]
    | _, _ => []
    end /\
  Method (head_request ua src) = "HEAD" /\
  Method (get_request w src x f) = "GET" /\
  ReqHeader (head_request ua src) !! "Range" = None /\
  forall req, req ∈ sent (trace s') ->
    URL req = src /\
    ReqHeader req !! "User-Agent"
    = (if String.eqb ua "" then None else Some ua) /\
    forall k, k <> "User-Agent" -> k <> "Range" -> ReqHeader req !! k = None.
Proof.
  intros s' ua.
  destruct (head_request_headers ua src) as (Hurl & Hua & Hother).
  split; [apply run_sent|]. split.
  { unfold head_request. destruct (String.eqb ua ""); reflexivity. }
  split.
  { unfold get_request. destruct (resumes w _); reflexivity. }
  split; [apply Hother; discriminate|].
  intros req Hin. split; [|split; [exact (sent_user_agent _ _ _ _ _ Hin)|]].
  - subst s'. rewrite run_sent in Hin.
    destruct (Seek_start w); [inversion Hin|].
    destruct (NewRequest w); [inversion Hin|].
    apply elem_of_cons in Hin. destruct Hin as [->|Hin]; [exact Hurl|].
    apply list_elem_of_singleton in Hin. subst req. apply get_request_headers.
  - subst s'. rewrite run_sent in Hin.
    destruct (Seek_start w); [inversion Hin|].
    destruct (NewRequest w); [inversion Hin|].
    apply elem_of_cons in Hin. destruct Hin as [->|Hin].
    + intros k Hk _. apply Hother, Hk.
    + apply list_elem_of_singleton in Hin. subst req. apply get_request_headers.
Qed.

(** A loop that ends without error has written every chunk in full. *)
Lemma copy_loop_ok_writes w rs lb le s s' :
  copy_loop w rs lb le s = (inr tt, s') ->
  writes (trace s') = writes (trace s) ++ rs ++ [lb].
Proof.
  revert s. induction rs as [|b rs IH]; intros s H.
  - rewrite copy_loop_nil in H. destruct le; [|discriminate].
    unfold chunk_state, written in H.
    destruct (Write_fault w (nwrites s)) as [[n e]|]; [discriminate|].
    injection H as <-. simpl. rewrite writes_app. reflexivity.
  - rewrite copy_loop_cons in H. unfold chunk_state, written in H.
    destruct (Write_fault w (nwrites s)) as [[n e]|]; [discriminate|].
    apply IH in H. simpl in H. rewrite H, writes_app. simpl.
    rewrite <- (assoc_L (++)). reflexivity.
Qed.

(** A run that returns nil. *)
Lemma run_nil w src x f s' :
  run w src x f = (inr tt, s') ->
  Seek_start w = None /\ NewRequest w = None /\
  exists resp,
    Do w (get_request w src x f) = inr resp /\
    last_err (Body resp) = io_EOF /\
    writes (trace s') = reads (Body resp) ++ [last_bytes (Body resp)] /\
    progress (d s')
    = uint (Z.of_nat (start_offset w src x f) + body_length (Body resp)) /\
    total (d s')
    = uint (uint (Z.of_nat (start_offset w src x f))
            + uint (ContentLength resp)).
Proof.
  intros HR.
  destruct (Seek_start w) as [e|] eqn:HS.
  { unfold run in HR. rewrite Download_eq, prepare_eq, HS in HR. discriminate. }
  destruct (NewRequest w) as [e|] eqn:HN.
  { unfold run in HR. rewrite Download_eq, prepare_eq, HS, HN in HR.
    discriminate. }
  destruct (Do w (get_request w src x f)) as [e|resp] eqn:HD.
  { destruct (prepare_ok w src x f HS HN) as (s1 & HP & _).
    unfold run in HR. rewrite Download_eq, HP, transfer_eq, HD in HR.
    discriminate. }
  destruct (run_answered w src x f resp HS HN HD)
    as (s1 & HR1 & Hpr1 & _ & Hw1 & _ & Htot).
  rewrite HR in HR1. symmetry in HR1.
  pose proof (copy_loop_ok_writes _ _ _ _ _ _ HR1) as Hwr.
  destruct (copy_loop_frame _ _ _ _ _ _ _ HR1) as (Ht & _).
  apply copy_loop_ok in HR1. destruct HR1 as (He & _ & Hp).
  rewrite Hw1 in Hwr. simpl in Hwr.
  split; [reflexivity|]. split; [reflexivity|].
  exists resp. split; [reflexivity|]. split; [exact He|]. split; [exact Hwr|].
  split; [|congruence].
  rewrite Hp, Hpr1, uint_uint_add. reflexivity.
Qed.

(** X2: when [Download] returns nil, the GET was answered and its body read
    to [io.EOF]; the writes are the chunks of the reads, one write for each,
    so the destination holds the whole body, in order, from the start
    offset, however the reads cut it, and the write position is at its
    end. *)
Theorem Download_success_file w src x f s' :
  run w src x f = (inr tt, s') ->
  exists resp,
    Do w (get_request w src x f) = inr resp /\
    last_err (Body resp) = io_EOF /\
    writes (trace s') = reads (Body resp) ++ [last_bytes (Body resp)] /\
    data (dst s')
    = store (data f) (start_offset w src x f) (body_bytes (Body resp)) /\
    pos (dst s')
    = (start_offset w src x f + length (body_bytes (Body resp)))%nat.
Proof.
  intros HR.
  pose proof (run_data w src x f) as Hdata.
  destruct (run_nil _ _ _ _ _ HR) as (HS & HN & resp & HD & He & Hwr & _).
  pose proof (run_pos w src x f HS HN) as Hpos.
  rewrite HR in Hdata, Hpos. simpl in Hdata, Hpos.
  assert (Hc : concat (writes (trace s')) = body_bytes (Body resp)).
  { rewrite Hwr, concat_app. simpl. rewrite app_nil_r. reflexivity. }
  rewrite Hc in Hdata, Hpos.
  exists resp. repeat split; assumption.
Qed.

(** The downloader after a run keeps its user agent. *)
Lemma run_userAgent w src x f : userAgent (d (snd (run w src x f))) = userAgent x.
Proof.
  unfold run. rewrite Download_eq, prepare_eq.
  destruct (Seek_start w); [reflexivity|].
  destruct (NewRequest w); [reflexivity|]. simpl.
  destruct (resumes w _); rewrite transfer_eq;
    (destruct (Do w _) as [e0|resp]; [reflexivity|]);
    destruct (copy_loop w _ _ _ _) as [r s2] eqn:HL;
    destruct (copy_loop_frame _ _ _ _ _ _ _ HL) as (_ & Hu & _);
    simpl; rewrite Hu; reflexivity.
Qed.

(** X8: when the first seek fails, [Download] returns its error and has
    changed nothing: the counters (the progress is not reset), the file and
    its position are as before, and nothing is sent.  When the request
    cannot be built, the progress has been reset to 0 and the position to
    0; the total, the bytes of the file are as before, and nothing is sent
    or written. *)
Theorem Download_early_failure w src x f e :
  (Seek_start w = Some e -> run w src x f = (inl e, start x f)) /\
  (Seek_start w = None -> NewRequest w = Some e ->
   let s' := snd (run w src x f) in
   fst (run w src x f) = inl e /\
   d s' = {| progress := 0; total := total x; userAgent := userAgent x |} /\
   dst s' = {| data := data f; pos := 0 |} /\
   sent (trace s') = [] /\ writes (trace s') = []).
Proof.
  unfold run. rewrite Download_eq, prepare_eq. split.
  - intros ->. reflexivity.
  - intros -> ->. simpl. repeat split.
Qed.

(** X9: the counters that a downloader holds from an earlier transfer do
    not influence a run that got past the first seek: two downloaders with
    the same user agent give the same result, the same file, the same trace
    and the same [Progress()], and, once the GET is answered, the same
    [Total()]. *)
Theorem Download_reuse w src x x' f :
  userAgent x = userAgent x' -> Seek_start w = None ->
  let r := run w src x f in
  let r' := run w src x' f in
  fst r = fst r' /\ dst (snd r) = dst (snd r') /\
  trace (snd r) = trace (snd r') /\
  Progress (d (snd r)) = Progress (d (snd r')) /\
  (NewRequest w = None ->
   (exists resp, Do w (get_request w src x f) = inr resp) ->
   snd r = snd r').
Proof.
  intros Hua HS. cbv zeta. unfold run, get_request.
  rewrite !Download_eq, !prepare_eq, HS. simpl. rewrite <- Hua.
  destruct (NewRequest w) as [e|].
  { simpl. repeat split. intros [=]. }
  destruct (resumes w _); rewrite !transfer_eq;
    (destruct (Do w _) as [e|resp];
     [simpl; repeat split; intros _ [resp [=]]|]);
    unfold total_state, resumed_state, fresh_state; simpl; rewrite <- Hua;
    destruct (copy_loop w _ _ _ _) as [r0 s0]; repeat split.
Qed.

Lemma resumes_false_stat w req :
  Stat w <> None \/ Seek_end w <> None -> resumes w req = false.
Proof.
  unfold resumes. intros H. destruct (Do w req) as [e|resp]; [reflexivity|].
  destruct H as [H|H].
  - rewrite (bool_decide_eq_false_2 _ H), andb_false_r. reflexivity.
  - rewrite (bool_decide_eq_false_2 _ H), andb_false_r. reflexivity.
Qed.

(** X10: an error of [dst.Stat()] or of the seek to the end of the
    destination is not returned: the transfer does not resume, the GET
    carries no [Range] header and starts at offset 0 with a progress of 0,
    and the result of [Download] is the result of that GET and of the
    streaming of its body. *)
Theorem Download_stat_error_swallowed w src x f :
  Seek_start w = None -> NewRequest w = None ->
  Stat w <> None \/ Seek_end w <> None ->
  let greq := plain_request (userAgent x) src in
  get_request w src x f = greq /\
  ReqHeader greq !! "Range" = None /\
  run w src x f
  = transfer w greq (fresh_state (head_request (userAgent x) src) (start x f)) /\
  (forall resp,
     Do w greq = inr resp -> last_err (Body resp) = io_EOF -> writes_ok w ->
     fst (run w src x f) = inr tt /\
     data (dst (snd (run w src x f)))
     = body_bytes (Body resp)
       ++ drop (length (body_bytes (Body resp))) (data f)).
Proof.
  intros HS HN HE greq.
  pose proof (resumes_false_stat w (head_request (userAgent x) src) HE) as Hres.
  assert (Hg : get_request w src x f = greq).
  { unfold get_request. rewrite Hres. reflexivity. }
  assert (HR : run w src x f
               = transfer w greq
                   (fresh_state (head_request (userAgent x) src) (start x f))).
  { unfold run. rewrite Download_eq, prepare_eq, HS, HN. simpl.
    rewrite Hres. reflexivity. }
  split; [exact Hg|]. split.
  { unfold greq, plain_request, head_request.
    destruct (String.eqb (userAgent x) ""); simpl.
    - apply lookup_empty.
    - rewrite lookup_insert_ne by discriminate. apply lookup_empty. }
  split; [exact HR|].
  intros resp HG He Hw.
  destruct (transfer_succeeds w greq
              (fresh_state (head_request (userAgent x) src) (start x f))
              resp HG He Hw) as (s2 & Ht).
  rewrite HR, Ht. simpl. split; [reflexivity|].
  destruct (transfer_ok _ _ _ _ Ht) as (resp' & HG' & _ & Hd & _).
  rewrite HG in HG'. injection HG' as <-.
  rewrite Hd. unfold file_write. simpl. apply store_start.
Qed.

(** X11: when the destination holds the first bytes of a content, the
    transfer resumes and the server answers the ranged GET with the rest of
    the content, [Download] returns nil, the destination holds exactly the
    content and [Progress()] is its length. *)
Theorem Download_resume_completes w src x f content resp :
  Seek_start w = None -> NewRequest w = None ->
  resumes w (head_request (userAgent x) src) = true ->
  data f = take (length (data f)) content ->
  Do w (range_request (userAgent x) src (Size f)) = inr resp ->
  last_err (Body resp) = io_EOF ->
  body_bytes (Body resp) = drop (length (data f)) content ->
  writes_ok w ->
  Z.of_nat (length content) < uint_size ->
  let s' := snd (run w src x f) in
  fst (run w src x f) = inr tt /\
  data (dst s') = content /\
  Progress (d s') = Z.of_nat (length content).
Proof.
  intros HS HN Hres Hpre HD He Hbody Hw Hlt s'.
  assert (Hg : get_request w src x f = range_request (userAgent x) src (Size f)).
  { unfold get_request. rewrite Hres. reflexivity. }
  assert (Hso : start_offset w src x f = length (data f)).
  { unfold start_offset. rewrite Hres. reflexivity. }
  rewrite <- Hg in HD.
  pose proof (run_data w src x f) as Hdata. fold s' in Hdata.
  destruct (run_writes_ok w src x f resp HS HN HD Hw) as (Hr & Hwr & Hp & _).
  fold s' in Hwr, Hp. rewrite He in Hr.
  assert (Hc : concat (attempted (Body resp)) = body_bytes (Body resp)).
  { unfold attempted, body_bytes. rewrite He, concat_app. simpl.
    rewrite app_nil_r. reflexivity. }
  assert (Hall : data f ++ body_bytes (Body resp) = content).
  { rewrite Hbody. rewrite Hpre at 1. apply take_drop. }
  rewrite Hwr, Hc, Hso, store_end, Hall in Hdata.
  split; [exact Hr|]. split; [exact Hdata|].
  unfold Progress. rewrite Hp, Hc, Hso, <- Nat2Z.inj_add, <- length_app, Hall.
  apply uint_small. lia.
Qed.

(** X12: a first [Download] into an empty destination that a read error
    interrupts after a prefix of the content, followed by a second
    [Download] with the same downloader and destination that resumes and
    is answered with the rest: the first returns the read error and leaves
    the prefix, the second returns nil and leaves exactly the content, with
    [Progress()] at its length. *)
Theorem Download_interrupted_then_resumed
    w1 w2 src x f content resp1 msg resp2 :
  data f = [] ->
  Seek_start w1 = None -> NewRequest w1 = None ->
  Do w1 (get_request w1 src x f) = inr resp1 ->
  last_err (Body resp1) = Err msg -> writes_ok w1 ->
  let n := length (concat (reads (Body resp1))) in
  concat (reads (Body resp1)) = take n content ->
  Seek_start w2 = None -> NewRequest w2 = None ->
  resumes w2 (head_request (userAgent x) src) = true ->
  Do w2 (range_request (userAgent x) src (Z.of_nat n)) = inr resp2 ->
  last_err (Body resp2) = io_EOF ->
  body_bytes (Body resp2) = drop n content ->
  writes_ok w2 ->
  Z.of_nat (length content) < uint_size ->
  let s1 := snd (run w1 src x f) in
  let s2 := snd (run w2 src (d s1) (dst s1)) in
  fst (run w1 src x f) = inl (Err msg) /\
  data (dst s1) = take n content /\
  fst (run w2 src (d s1) (dst s1)) = inr tt /\
  data (dst s2) = content /\
  Progress (d s2) = Z.of_nat (length content).
Proof.
  intros Hf HS1 HN1 HD1 He1 Hw1 n Hpre HS2 HN2 Hres HD2 He2 Hbody Hw2 Hlt s1 s2.
  (* the first run *)
  pose proof (run_data w1 src x f) as Hdata1. fold s1 in Hdata1.
  destruct (run_writes_ok w1 src x f resp1 HS1 HN1 HD1 Hw1) as (Hr1 & Hwr1 & _).
  fold s1 in Hwr1. rewrite He1 in Hr1.
  unfold attempted in Hwr1. rewrite He1, app_nil_r in Hwr1.
  assert (Hso1 : start_offset w1 src x f = 0%nat).
  { pose proof (start_offset_le w1 src x f) as H. rewrite Hf in H. simpl in H. lia. }
  rewrite Hwr1, Hso1, Hf, store_start in Hdata1. simpl in Hdata1.
  rewrite drop_nil, app_nil_r in Hdata1.
  assert (Hd1 : data (dst s1) = take n content) by congruence.
  assert (Hlen1 : length (data (dst s1)) = n).
  { rewrite Hdata1. reflexivity. }
  pose proof (run_userAgent w1 src x f) as Hua. fold s1 in Hua.
  (* the second run *)
  assert (Hres2 : resumes w2 (head_request (userAgent (d s1)) src) = true)
    by (rewrite Hua; exact Hres).
  assert (Hg : get_request w2 src (d s1) (dst s1)
               = range_request (userAgent x) src (Z.of_nat n)).
  { unfold get_request, Size. rewrite Hres2, Hua, Hlen1. reflexivity. }
  assert (Hso2 : start_offset w2 src (d s1) (dst s1) = n).
  { unfold start_offset. rewrite Hres2. exact Hlen1. }
  rewrite <- Hg in HD2.
  pose proof (run_data w2 src (d s1) (dst s1)) as Hdata2. fold s2 in Hdata2.
  destruct (run_writes_ok w2 src (d s1) (dst s1) resp2 HS2 HN2 HD2 Hw2)
    as (Hr2 & Hwr2 & Hp2 & _).
  fold s2 in Hwr2, Hp2. rewrite He2 in Hr2.
  assert (Hc : concat (attempted (Body resp2)) = body_bytes (Body resp2)).
  { unfold attempted, body_bytes. rewrite He2, concat_app. simpl.
    rewrite app_nil_r. reflexivity. }
  assert (Hall : data (dst s1) ++ body_bytes (Body resp2) = content).
  { rewrite Hbody, Hd1. apply take_drop. }
  rewrite Hwr2, Hc, Hso2, <- Hlen1, store_end, Hall in Hdata2.
  split; [exact Hr1|]. split; [exact Hd1|]. split; [exact Hr2|].
  split; [exact Hdata2|].
  unfold Progress. rewrite Hp2, Hc, Hso2, <- Hlen1.
  rewrite <- Nat2Z.inj_add, <- length_app, Hall.
  apply uint_small. lia.
Qed.

(** Without wrap-around the loop moves the progress up, by at most the
    bytes of the body. *)
Lemma copy_loop_progress_bounds w rs lb le s r s' :
  0 <= progress (d s) ->
  progress (d s) + Z.of_nat (length (concat rs ++ lb)) < uint_size ->
  copy_loop w rs lb le s = (r, s') ->
  progress (d s) <= progress (d s')
  <= progress (d s) + Z.of_nat (length (concat rs ++ lb)).
Proof.
  revert s. induction rs as [|b rs IH]; intros s H0 Hlt H.
  - simpl in Hlt. rewrite copy_loop_nil in H. destruct le.
    + injection H as _ <-. simpl.
      rewrite uint_add_uint, uint_small by lia. lia.
    + injection H as _ <-. lia.
  - simpl in Hlt. rewrite <- (assoc_L (++)), length_app in Hlt. simpl.
    rewrite <- (assoc_L (++)), length_app.
    rewrite copy_loop_cons in H.
    assert (Hv : uint (progress (d s) + uint (Z.of_nat (length b)))
                 = progress (d s) + Z.of_nat (length b)).
    { rewrite uint_add_uint, uint_small by lia. reflexivity. }
    destruct (Write_fault w (nwrites s)) as [[n e]|] eqn:Hw.
    + injection H as _ <-. simpl. rewrite Hv. lia.
    + apply IH in H; simpl; rewrite ?Hv; try lia.
      simpl in H. rewrite Hv in H. lia.
Qed.

End DownloadMore.

(** * The transfer without resume *)

Section Fallback.

Ltac by_computation := vm_compute; reflexivity.

Lemma get_request_plain w src x f :
  resumes w (head_request (userAgent x) src) = false ->
  get_request w src x f = plain_request (userAgent x) src
  /\ start_offset w src x f = 0%nat.
Proof. intros H. unfold get_request, start_offset. rewrite H. split; reflexivity. Qed.

(** C4: when the probe fails, or is answered with a status that is not
    2xx, or without [Accept-Ranges: bytes], [Download] goes on to the GET:
    the request it then hands to [httpClient.Do] is the probe's request with
    the method [GET], for the source URL and without a [Range] header; the
    write position is 0, the progress counter is 0 and nothing has been
    written before it.  The result of [Download] is the result of the GET
    and of the streaming alone: an error of the GET is returned, and when
    the body is read to [io.EOF] and written, [Download] returns nil, every
    chunk read has been written, in order, and the whole body is in the
    destination from offset 0, with the write position at its end. *)
Theorem Download_without_resume w src x f :
  Seek_start w = None -> NewRequest w = None ->
  match Do w (head_request (userAgent x) src) with
  | inl _ => True
  | inr presp =>
      is_2xx (StatusCode presp) = false
      \/ Header_Get presp "Accept-Ranges" <> "bytes"
  end ->
  let greq := plain_request (userAgent x) src in
  exists s1,
    prepare w src (start x f) = (inr greq, s1) /\
    Method greq = "GET" /\ URL greq = src /\
    ReqHeader greq !! "Range" = None /\
    pos (dst s1) = 0%nat /\ data (dst s1) = data f /\
    progress (d s1) = 0 /\ writes (trace s1) = [] /\
    run w src x f = transfer w greq s1 /\
    sent (trace (snd (run w src x f)))
    = [head_request (userAgent x) src; greq] /\
    (forall e, Do w greq = inl e ->
       fst (run w src x f) = inl e /\
       writes (trace (snd (run w src x f))) = []) /\
    (forall resp,
       Do w greq = inr resp -> last_err (Body resp) = io_EOF -> writes_ok w ->
       fst (run w src x f) = inr tt /\
       writes (trace (snd (run w src x f)))
       = reads (Body resp) ++ [last_bytes (Body resp)] /\
       data (dst (snd (run w src x f)))
       = body_bytes (Body resp)
         ++ drop (length (body_bytes (Body resp))) (data f) /\
       pos (dst (snd (run w src x f))) = length (body_bytes (Body resp))).
Proof.
  intros HS HN HP greq.
  pose proof (resumes_false _ _ HP) as Hres.
  destruct (get_request_plain w src x f Hres) as [Hgreq Hoff].
  assert (HPr : prepare w src (start x f)
                = (inr greq, fresh_state (head_request (userAgent x) src)
                               (start x f))).
  { rewrite prepare_eq, HS, HN. simpl. rewrite Hres. reflexivity. }
  eexists. split; [exact HPr|].
  assert (HR : run w src x f
               = transfer w greq
                   (fresh_state (head_request (userAgent x) src) (start x f))).
  { unfold run. rewrite Download_eq, HPr. reflexivity. }
  split; [reflexivity|].
  split; [apply head_request_headers|].
  split.
  { unfold greq, plain_request, head_request. simpl.
    destruct (String.eqb (userAgent x) ""); simpl.
    - apply lookup_empty.
    - rewrite lookup_insert_ne by discriminate. apply lookup_empty. }
  do 4 (split; [reflexivity|]). split; [exact HR|].
  split.
  { rewrite run_sent, HS, HN, Hgreq. reflexivity. }
  split.
  { intros e HG. rewrite HR, transfer_eq, HG. split; reflexivity. }
  intros resp HG He Hw.
  destruct (transfer_succeeds w greq
              (fresh_state (head_request (userAgent x) src) (start x f))
              resp HG He Hw) as (s2 & Ht).
  assert (HRun : run w src x f = (inr tt, s2)) by (rewrite HR; exact Ht).
  destruct (run_nil _ _ _ _ _ HRun) as (_ & _ & resp1 & HG1 & _ & Hwr & _).
  rewrite Hgreq in HG1. fold greq in HG1. rewrite HG in HG1.
  injection HG1 as <-.
  pose proof (run_pos w src x f HS HN) as Hpos.
  destruct (transfer_ok _ _ _ _ Ht) as (resp2 & HG2 & _ & Hd & _).
  rewrite HG in HG2. injection HG2 as <-.
  rewrite HRun in Hpos |- *. simpl in Hpos |- *.
  split; [reflexivity|]. split; [exact Hwr|]. split.
  - rewrite Hd. unfold file_write. simpl. apply store_start.
  - rewrite Hpos, Hoff, Hwr. unfold body_bytes.
    rewrite concat_app. simpl. rewrite app_nil_r. reflexivity.
Qed.

Lemma Download_without_resume_witness :
  fst (run hello_no_head url packer stale_file) = inr tt
  /\ Method <$> sent (trace (snd (run hello_no_head url packer stale_file)))
     = ["HEAD"; "GET"]
  /\ writes (trace (snd (run hello_no_head url packer stale_file)))
     = [take 4 hello; take 4 (drop 4 hello); drop 8 hello]
  /\ data (dst (snd (run hello_no_head url packer stale_file))) = hello
  /\ pos (dst (snd (run hello_no_head url packer stale_file))) = 11%nat.
Proof.
  assert (Hprobe :
    match Do hello_no_head (head_request (userAgent packer) url) with
    | inl _ => True
    | inr presp =>
        is_2xx (StatusCode presp) = false
        \/ Header_Get presp "Accept-Ranges" <> "bytes"
    end).
  { vm_compute. left. reflexivity. }
  destruct (Download_without_resume hello_no_head url packer stale_file
              ltac:(by_computation) ltac:(by_computation) Hprobe)
    as (s1 & _ & _ & _ & _ & _ & _ & _ & _ & _ & Hsent & _ & H).
  destruct (H hello_response
              ltac:(by_computation) ltac:(by_computation) (fun _ => eq_refl))
    as (Hok & Hwr & Hd & Hp).
  split; [exact Hok|].
  split; [rewrite Hsent; by_computation|].
  split; [rewrite Hwr; by_computation|].
  split; [rewrite Hd; by_computation|].
  rewrite Hp. by_computation.
Defined.

End Fallback.

(** * Further properties of the client *)

Section ClientMore.

(** ** More on the client *)

(** X13: [Get] panics only on a nil configuration, and only after
    [os.Getwd] has succeeded.  When it returns an error, the path is empty
    and the error is the one of [os.Getwd], or the one of go-getter's [Get]
    called in file mode with the URL and the target path of the
    configuration; when it returns no error, the path is the target path.
    The client is the same after the call. *)
Theorem Get_result w h dc :
  match Get w h dc with
  | None =>
      (exists pwd, Getwd w = inr pwd) /\ configs h !! config dc = None
  | Some (dc', (path, None)) =>
      dc' = dc /\
      exists pwd cfg,
        Getwd w = inr pwd /\ configs h !! config dc = Some cfg /\
        path = TargetPath cfg /\
        getter_Get w {| Src := Url cfg; Dst := TargetPath cfg; Pwd := pwd;
                        Mode := ClientModeFile; Dir := false |} = None
  | Some (dc', (path, Some e)) =>
      dc' = dc /\ path = EmptyString /\
      (Getwd w = inl e \/
       exists pwd cfg,
         Getwd w = inr pwd /\ configs h !! config dc = Some cfg /\
         getter_Get w {| Src := Url cfg; Dst := TargetPath cfg; Pwd := pwd;
                         Mode := ClientModeFile; Dir := false |} = Some e)
  end.
Proof.
  unfold Get. destruct (Getwd w) as [e|pwd] eqn:HG.
  - split; [reflexivity|]. split; [reflexivity|]. left. reflexivity.
  - destruct (configs h !! config dc) as [cfg|] eqn:Hc; simpl.
    + destruct (getter_Get w _) as [e|] eqn:Hg.
      * split; [reflexivity|]. split; [reflexivity|]. right. eauto.
      * split; [reflexivity|]. eauto 10.
    + split; [eauto|reflexivity].
Qed.

(** X14: [Get] reads nothing of the configuration but its URL and its
    target path: the registry of downloaders, the copy flag, the hash, the
    checksum and the user agent play no part in what it does or returns. *)
Theorem Get_reads_Url_and_TargetPath w h h' dc cfg cfg' :
  configs h !! config dc = Some cfg ->
  configs h' !! config dc = Some cfg' ->
  Url cfg = Url cfg' -> TargetPath cfg = TargetPath cfg' ->
  Get w h dc = Get w h' dc.
Proof.
  intros Hc Hc' Hu Ht. unfold Get. rewrite Hc, Hc'. simpl.
  rewrite Hu, Ht. reflexivity.
Qed.

(** X15: a second [NewDownloadClient] on the same configuration changes
    nothing and allocates nothing: the configuration has a registry after
    the first call, and the second client shares it. *)
Theorem NewDownloadClient_twice h c h' dc :
  NewDownloadClient h c = Some (h', dc) ->
  NewDownloadClient h' c = Some (h', dc) /\
  exists cfg' m, configs h' !! c = Some cfg' /\ DownloaderMap cfg' = Some m.
Proof.
  unfold NewDownloadClient. intros H.
  destruct (configs h !! c) as [cfg|] eqn:Hc; simpl in H; [|discriminate].
  destruct (DownloaderMap cfg) as [m|] eqn:Hm.
  - injection H as <- <-. rewrite Hc. simpl. rewrite Hm. eauto.
  - simpl in H. injection H as <- <-. simpl.
    rewrite lookup_insert_eq. simpl. split; [reflexivity|]. eauto.
Qed.

(** ** More on PercentProgress *)

(** A float divided by itself is 1. *)
Lemma f64_div_same m e :
  f64_div (S754_finite false m e) (S754_finite false m e)
  = S754_finite false (2 ^ 52) (-52).
Proof.
  unfold f64_div, SFdiv, SFdiv_core_binary.
  replace (Zdigits2 (Z.pos m) + e - (Zdigits2 (Z.pos m) + e)) with 0 by lia.
  replace (e - e) with 0 by lia.
  change (Z.min (fexp f64_prec f64_emax 0) 0) with (-53).
  change (0 - -53) with 53.
  rewrite Z.shiftl_mul_pow2 by lia.
  assert (Hdiv : Z.div_eucl (Z.pos m * 2 ^ 53) (Z.pos m) = (2 ^ 53, 0)).
  { pose proof (Z_div_mod (Z.pos m * 2 ^ 53) (Z.pos m) ltac:(lia)) as H.
    destruct (Z.div_eucl (Z.pos m * 2 ^ 53) (Z.pos m)) as [q r].
    destruct H as [Hq Hr].
    assert (q = 2 ^ 53) by nia. assert (r = 0) by nia. subst. reflexivity. }
  rewrite Hdiv.
  replace (new_location (Z.pos m) 0) with loc_Exact
    by (symmetry; apply new_location_exact; reflexivity).
  reflexivity.
Qed.

(** The percentage of a counter that has reached the total, and of one
    that is still at 0. *)
Lemma percent_endpoints a t :
  0 < t < 2 ^ 64 ->
  int_of_float64 a (f64_mul (f64_div (float64 0) (float64 t)) (float64 100)) = 0
  /\
  int_of_float64 a (f64_mul (f64_div (float64 t) (float64 t)) (float64 100))
  = 100.
Proof.
  intros Ht. destruct (float64_value t Ht) as (mt & et & -> & _).
  split; [reflexivity|]. rewrite f64_div_same. reflexivity.
Qed.

(** X17: with a total above 0, [PercentProgress] is 0 when the progress is
    0 and 100 when the progress has reached the total, on every
    architecture. *)
Theorem PercentProgress_endpoints a h dc x t :
  downloader dc = Some x ->
  Downloader_Total h x = Some t -> 0 < t < uint_size ->
  (Downloader_Progress h x = Some 0 -> PercentProgress a h dc = Some 0) /\
  (Downloader_Progress h x = Some t -> PercentProgress a h dc = Some 100).
Proof.
  intros Hx Ht Hr. destruct (percent_endpoints a t Hr) as [H0 H100].
  unfold PercentProgress. rewrite Hx, Ht.
  split; intros ->; simpl; f_equal; assumption.
Qed.

(** X19: with a total of 0, as a downloader has it before its first
    transfer and until the GET is answered, the quotient is a NaN (progress
    0) or an infinity, and [PercentProgress] returns what the processor's
    conversion makes of it: [-2^63] on amd64; 0 for a progress of 0 and
    [2^63-1] otherwise on arm64.  It does not panic. *)
Theorem PercentProgress_zero_total a h dc x p :
  downloader dc = Some x ->
  Downloader_Total h x = Some 0 ->
  Downloader_Progress h x = Some p -> 0 <= p < uint_size ->
  PercentProgress a h dc
  = Some (cvt_invalid a (if p =? 0 then S754_nan else S754_infinity false)) /\
  (a = amd64 -> PercentProgress a h dc = Some min_int64) /\
  (a = arm64 ->
   PercentProgress a h dc = Some (if p =? 0 then 0 else max_int64)).
Proof.
  intros Hx Ht Hp Hr.
  assert (E : PercentProgress a h dc
    = Some (cvt_invalid a (if p =? 0 then S754_nan else S754_infinity false))).
  { unfold PercentProgress. rewrite Hx, Hp, Ht. simpl. f_equal.
    destruct (Z.eqb_spec p 0) as [->|Hp0].
    - reflexivity.
    - destruct (float64_value p ltac:(unfold uint_size in Hr; lia))
        as (m & e & -> & _). reflexivity. }
  split; [exact E|]. split; intros ->; rewrite E; simpl.
  - reflexivity.
  - destruct (p =? 0); reflexivity.
Qed.

(** ** The client and the downloader together *)

(** X16: the downloaders that [NewDownloadClient] puts in the registry of
    a configuration without one use the user agent of the configuration: on
    every request value that a [Download] run on one of them hands to
    [httpClient.Do], [User-Agent] is set to it when it is not empty, and
    [Download] puts no [User-Agent] header when it is empty, which leaves
    the header to Go's default. *)
Theorem default_registry_user_agent h c cfg h' dc :
  configs h !! c = Some cfg -> DownloaderMap cfg = None ->
  NewDownloadClient h c = Some (h', dc) ->
  forall cfg' m scheme l,
    configs h' !! c = Some cfg' -> DownloaderMap cfg' = Some m ->
    m !! scheme = Some (HTTPDownloaderPtr l) ->
    exists x, downloaders h' !! l = Some x /\
      forall w src f req,
        req ∈ sent (trace (snd (run w src x f))) ->
        ReqHeader req !! "User-Agent"
        = (if String.eqb (UserAgent cfg) "" then None
           else Some (UserAgent cfg)).
Proof.
  intros Hc Hm HN cfg' m scheme l Hc' Hm' Hl.
  unfold NewDownloadClient in HN. rewrite Hc in HN. simpl in HN.
  rewrite Hm in HN. unfold new_HTTPDownloader in HN.
  injection HN as <- <-. simpl in *.
  rewrite lookup_insert_eq in Hc'. injection Hc' as <-. simpl in Hm'.
  injection Hm' as <-.
  set (d0 := {| progress := 0; total := 0; userAgent := UserAgent cfg |}) in *.


  assert (Hd : exists x, <[fresh (dom (<[fresh (dom (downloaders h)) := d0]>
                                          (downloaders h))) := d0]>
                           (<[fresh (dom (downloaders h)) := d0]> (downloaders h))
                         !! l = Some x /\ userAgent x = UserAgent cfg).
  { destruct (decide (scheme = "https")) as [->|Hs].
    - rewrite lookup_insert_eq in Hl. injection Hl as <-.
      exists d0. split; [apply lookup_insert_eq|reflexivity].
    - rewrite lookup_insert_ne in Hl by congruence.
      destruct (decide (scheme = "http")) as [->|Hs'].
      + rewrite lookup_insert_eq in Hl. injection Hl as <-.
        exists d0. split; [|reflexivity].
        rewrite lookup_insert_ne; [apply lookup_insert_eq|].
        intros Heq.
        pose proof (fresh_downloader_None
                      (<[fresh (dom (downloaders h)) := d0]> (downloaders h))) as Hf.
        rewrite Heq, lookup_insert_eq in Hf. discriminate.
      + rewrite lookup_insert_ne, lookup_empty in Hl by congruence.
        discriminate. }
  destruct Hd as (x & Hx & Hua). exists x. split; [exact Hx|].
  intros w src f req Hin. rewrite <- Hua. exact (sent_user_agent _ _ _ _ _ Hin).
Qed.


(** X20: when the GET is answered with a content length that the body does
    not exceed, then however the run ends (nil, a read error, a write
    error) [Total()] is the start offset plus the content length and
    [Progress()] lies between the start offset and [Total()]; a client whose
    active downloader is that downloader reports a percentage between 0 and
    100 when the total is above 0. *)
Theorem Download_progress_le_total w src x f resp :
  Seek_start w = None -> NewRequest w = None ->
  Do w (get_request w src x f) = inr resp ->
  body_length (Body resp) <= ContentLength resp ->
  Z.of_nat (start_offset w src x f) + ContentLength resp < uint_size ->
  let s' := snd (run w src x f) in
  Total (d s') = Z.of_nat (start_offset w src x f) + ContentLength resp /\
  Z.of_nat (start_offset w src x f) <= Progress (d s') <= Total (d s') /\
  forall a h l c,
    downloaders h !! l = Some (d s') -> 0 < Total (d s') ->
    exists v,
      PercentProgress a h
        {| config := c; downloader := Some (HTTPDownloaderPtr l) |} = Some v /\
      0 <= v <= 100.
Proof.
  intros HS HN HD HB HR.
  assert (H0 : 0 <= body_length (Body resp)) by (unfold body_length; lia).
  assert (Hso : uint (Z.of_nat (start_offset w src x f))
                = Z.of_nat (start_offset w src x f)).
  { apply uint_small. unfold uint_size in *. lia. }
  assert (Hst : uint (Z.of_nat (start_offset w src x f) + ContentLength resp)
                = Z.of_nat (start_offset w src x f) + ContentLength resp).
  { apply uint_small. unfold uint_size in *. lia. }
  intros s'.
  destruct (run_answered w src x f resp HS HN HD)
    as (s1 & HL & Hp1 & _ & _ & _ & Ht1).
  rewrite Hso in Hp1. rewrite uint_add_uint, uint_uint_add, Hst in Ht1.
  destruct (run w src x f) as [r s2] eqn:HRun. subst s'. simpl.
  symmetry in HL.
  destruct (copy_loop_frame _ _ _ _ _ _ _ HL) as (Htot & _).
  unfold body_length, body_bytes in HB.
  apply copy_loop_progress_bounds in HL as Hb; rewrite Hp1 in *; [|lia..].
  unfold Progress, Total. rewrite Htot, Ht1.
  split; [reflexivity|]. split; [lia|].
  intros a h l c Hl Hpos. unfold PercentProgress. simpl. rewrite Hl. simpl.
  eexists. split; [reflexivity|]. unfold Progress, Total.
  apply percent_range; rewrite Htot, Ht1 in *; unfold uint_size in *; lia.
Qed.

End ClientMore.

(** * The further properties on concrete inputs *)

Section MoreExamples.

Ltac by_computation := vm_compute; reflexivity.

Lemma Download_success_file_witness :
  data (dst (snd (run hello_server url packer hello_prefix))) = hello
  /\ writes (trace (snd (run hello_server url packer hello_prefix)))
     = [take 4 (drop 5 hello); drop 9 hello].
Proof.
  destruct (Download_success_file hello_server url packer hello_prefix
              (snd (run hello_server url packer hello_prefix))
              ltac:(by_computation))
    as (resp & HD & _ & Hwr & Hd & _).
  vm_compute in HD. injection HD as <-.
  split; [rewrite Hd; by_computation|rewrite Hwr; by_computation].
Defined.

Lemma Download_progress_position_witness :
  Z.of_nat (pos (dst (snd (run disk_full url packer empty_file)))) = 5
  /\ Progress (d (snd (run disk_full url packer empty_file))) = 8
  /\ Progress (d (snd (run hello_server url packer empty_file)))
     = Z.of_nat (pos (dst (snd (run hello_server url packer empty_file)))).
Proof.
  split; [by_computation|]. split; [by_computation|].
  apply (Download_progress_position hello_server url packer empty_file).
  - by_computation.
  - intros req resp H. unfold hello_server, no_faults in H. simpl in H.
    destruct (String.eqb (Method req) "HEAD");
      [|destruct (decide (ReqHeader req !! "Range" = Some "bytes=5-"))];
      injection H as <-; by_computation.
  - by_computation.
  - intros k. reflexivity.
Defined.

Lemma Download_read_error_witness :
  fst (run reset_server url packer empty_file) = inl (Err "connection reset")
  /\ data (dst (snd (run reset_server url packer empty_file))) = take 5 hello
  /\ Progress (d (snd (run reset_server url packer empty_file))) = 5.
Proof.
  destruct (Download_read_error reset_server url packer empty_file
              reset_response "connection reset"
              ltac:(by_computation) ltac:(by_computation)
              ltac:(by_computation) ltac:(by_computation)
              (fun _ => eq_refl) ltac:(by_computation))
    as (Hr & _ & Hd & Hp).
  split; [exact Hr|]. split; [rewrite Hd; by_computation|].
  rewrite Hp. by_computation.
Defined.

Lemma Download_write_error_witness :
  fst (run disk_full url packer empty_file) = inl (Err "disk full")
  /\ writes (trace (snd (run disk_full url packer empty_file)))
     = [take 4 hello; take 1 (drop 4 hello)]
  /\ Progress (d (snd (run disk_full url packer empty_file))) = 8
  /\ Z.of_nat (pos (dst (snd (run disk_full url packer empty_file)))) = 5.
Proof.
  assert (Hbefore : forall j, (j < 1)%nat -> Write_fault disk_full j = None).
  { intros j Hj. assert (j = 0%nat) as -> by lia. reflexivity. }
  destruct (Download_write_error disk_full url packer empty_file
              hello_response 1 (take 4 (drop 4 hello)) 1 (Err "disk full")
              ltac:(by_computation) ltac:(by_computation)
              ltac:(by_computation) ltac:(by_computation)
              ltac:(by_computation) Hbefore ltac:(by_computation))
    as (Hr & Hwr & Hp & Hpos).
  split; [exact Hr|]. split; [rewrite Hwr; by_computation|].
  split; [rewrite Hp; by_computation|rewrite Hpos; by_computation].
Defined.

Lemma Download_error_source_witness :
  Seek_start reset_server = Some (Err "connection reset")
  \/ NewRequest reset_server = Some (Err "connection reset")
  \/ Do reset_server (get_request reset_server url packer empty_file)
     = inl (Err "connection reset")
  \/ exists resp,
       Do reset_server (get_request reset_server url packer empty_file)
       = inr resp /\
       ((last_err (Body resp) = Err "connection reset"
         /\ Err "connection reset" <> io_EOF)
        \/ exists k n, (k <= length (reads (Body resp)))%nat /\
                       Write_fault reset_server k
                       = Some (n, Err "connection reset")).
Proof.
  apply (Download_error_source reset_server url packer empty_file).
  by_computation.
Defined.

Lemma Download_requests_witness :
  sent (trace (snd (run hello_server url packer hello_prefix)))
  = [ {| Method := "HEAD"; URL := url;
         ReqHeader := {[ "User-Agent" := "packer" ]} |};
      {| Method := "GET"; URL := url;
         ReqHeader := <[ "Range" := "bytes=5-" ]>
                        {[ "User-Agent" := "packer" ]} |} ]
  /\ sent (trace (snd (run seek_fails url packer hello_prefix))) = [].
Proof.
  destruct (Download_requests hello_server url packer hello_prefix) as (H & _).
  destruct (Download_requests seek_fails url packer hello_prefix) as (H' & _).
  split; [rewrite H; by_computation|rewrite H'; by_computation].
Defined.

Lemma Download_early_failure_witness :
  run seek_fails url used hello_prefix
  = (inl (Err "seek"), start used hello_prefix)
  /\ Progress (d (snd (run bad_url url used hello_prefix))) = 0
  /\ Total (d (snd (run bad_url url used hello_prefix))) = 900.
Proof.
  destruct (Download_early_failure seek_fails url used hello_prefix (Err "seek"))
    as (H1 & _).
  destruct (Download_early_failure bad_url url used hello_prefix (Err "parse"))
    as (_ & H2).
  destruct (H2 ltac:(by_computation) ltac:(by_computation)) as (_ & Hd & _).
  split; [apply H1; by_computation|].
  rewrite Hd. split; reflexivity.
Defined.

Lemma Download_reuse_witness :
  snd (run hello_server url used hello_prefix)
  = snd (run hello_server url packer hello_prefix).
Proof.
  destruct (Download_reuse hello_server url used packer hello_prefix
              ltac:(by_computation) ltac:(by_computation))
    as (_ & _ & _ & _ & H).
  apply H; [by_computation|].
  eexists. by_computation.
Defined.

Lemma Download_stat_error_swallowed_witness :
  fst (run stat_fails url packer hello_prefix) = inr tt
  /\ data (dst (snd (run stat_fails url packer hello_prefix))) = hello.
Proof.
  assert (HE : Stat stat_fails <> None \/ Seek_end stat_fails <> None)
    by (left; discriminate).
  assert (HS : Seek_start stat_fails = None) by reflexivity.
  assert (HN : NewRequest stat_fails = None) by reflexivity.
  destruct (Download_stat_error_swallowed stat_fails url packer hello_prefix
              HS HN HE) as (_ & _ & _ & H).
  assert (HD : Do stat_fails (plain_request (userAgent packer) url)
               = inr hello_response) by by_computation.
  assert (He : last_err (Body hello_response) = io_EOF) by reflexivity.
  assert (Hw : writes_ok stat_fails) by (intros k; reflexivity).
  destruct (H hello_response HD He Hw) as (Hr & Hd).
  split; [exact Hr|rewrite Hd; by_computation].
Defined.

Lemma Download_resume_completes_witness :
  fst (run hello_server url packer hello_prefix) = inr tt
  /\ data (dst (snd (run hello_server url packer hello_prefix))) = hello
  /\ Progress (d (snd (run hello_server url packer hello_prefix))) = 11.
Proof.
  apply (Download_resume_completes hello_server url packer hello_prefix hello
           {| StatusCode := 206; Header := ∅; ContentLength := 6;
              Body := eof_body [take 4 (drop 5 hello)] (drop 9 hello) |});
    by_computation.
Defined.

Lemma Download_interrupted_then_resumed_witness :
  fst (run reset_server url packer empty_file) = inl (Err "connection reset")
  /\ data (dst (snd (run hello_server url
                       (d (snd (run reset_server url packer empty_file)))
                       (dst (snd (run reset_server url packer empty_file))))))
     = hello.
Proof.
  destruct (Download_interrupted_then_resumed reset_server hello_server url
              packer empty_file hello reset_response "connection reset"
              {| StatusCode := 206; Header := ∅; ContentLength := 6;
                 Body := eof_body [take 4 (drop 5 hello)] (drop 9 hello) |}
              ltac:(by_computation) ltac:(by_computation)
              ltac:(by_computation) ltac:(by_computation)
              ltac:(by_computation) (fun _ => eq_refl)
              ltac:(by_computation) ltac:(by_computation)
              ltac:(by_computation) ltac:(by_computation)
              ltac:(by_computation) ltac:(by_computation)
              ltac:(by_computation) (fun _ => eq_refl)
              ltac:(by_computation))
    as (H1 & _ & _ & H2 & _).
  split; [exact H1|exact H2].
Defined.

Lemma Get_reads_Url_and_TargetPath_witness :
  Get fetch_ok example_heap {| config := 1%positive; downloader := None |}
  = Get fetch_ok other_heap {| config := 1%positive; downloader := None |}.
Proof.
  apply (Get_reads_Url_and_TargetPath fetch_ok example_heap other_heap
           {| config := 1%positive; downloader := None |}
           example_config other_config);
    try reflexivity; apply lookup_singleton_eq.
Defined.

Lemma NewDownloadClient_twice_witness :
  NewDownloadClient example_client_heap 1%positive
  = Some (example_client_heap, {| config := 1%positive; downloader := None |}).
Proof.
  apply (NewDownloadClient_twice example_heap 1%positive).
  unfold example_client_heap, NewDownloadClient. simpl.
  rewrite lookup_singleton_eq. reflexivity.
Defined.

Lemma PercentProgress_endpoints_witness :
  PercentProgress amd64 (active_heap 0 10000) active_client = Some 0
  /\ PercentProgress arm64 (active_heap 10000 10000) active_client = Some 100.
Proof.
  split.
  - destruct (PercentProgress_endpoints amd64 (active_heap 0 10000) active_client
                (HTTPDownloaderPtr 1%positive) 10000
                eq_refl ltac:(by_computation) ltac:(unfold uint_size; lia))
      as (H & _).
    apply H. by_computation.
  - destruct (PercentProgress_endpoints arm64 (active_heap 10000 10000)
                active_client (HTTPDownloaderPtr 1%positive) 10000
                eq_refl ltac:(by_computation) ltac:(unfold uint_size; lia))
      as (_ & H).
    apply H. by_computation.
Defined.

Lemma default_registry_user_agent_witness :
  exists x,
    downloaders example_client_heap !! 1%positive = Some x /\
    forall req,
      req ∈ sent (trace (snd (run hello_server url x empty_file))) ->
      ReqHeader req !! "User-Agent" = Some "packer".
Proof.
  set (m := <["https" := HTTPDownloaderPtr 2%positive]>
              (<["http" := HTTPDownloaderPtr 1%positive]>
                 (∅ : gmap string Downloader))).
  assert (Hc : configs example_heap !! 1%positive = Some example_config)
    by apply lookup_singleton_eq.
  assert (HN : NewDownloadClient example_heap 1%positive
               = Some (example_client_heap,
                       {| config := 1%positive; downloader := None |})).
  { unfold example_client_heap, NewDownloadClient. simpl.
    rewrite lookup_singleton_eq. reflexivity. }
  destruct (default_registry_user_agent example_heap 1%positive example_config
              example_client_heap _ Hc eq_refl HN
              (set_DownloaderMap example_config m) m "http" 1%positive
              ltac:(by_computation) eq_refl ltac:(by_computation))
    as (x & Hx & H).
  exists x. split; [exact Hx|].
  intros req Hin. exact (H hello_server url empty_file req Hin).
Defined.


Lemma PercentProgress_zero_total_witness :
  PercentProgress amd64 (active_heap 4096 0) active_client = Some min_int64
  /\ PercentProgress arm64 (active_heap 0 0) active_client = Some 0.
Proof.
  split.
  - destruct (PercentProgress_zero_total amd64 (active_heap 4096 0)
                active_client (HTTPDownloaderPtr 1%positive) 4096
                eq_refl ltac:(by_computation) ltac:(by_computation)
                ltac:(unfold uint_size; lia))
      as (_ & H & _).
    exact (H eq_refl).
  - destruct (PercentProgress_zero_total arm64 (active_heap 0 0)
                active_client (HTTPDownloaderPtr 1%positive) 0
                eq_refl ltac:(by_computation) ltac:(by_computation)
                ltac:(unfold uint_size; lia))
      as (_ & _ & H).
    exact (H eq_refl).
Defined.

Lemma Download_progress_le_total_witness :
  Total (d (snd (run reset_server url packer empty_file))) = 11
  /\ 0 <= Progress (d (snd (run reset_server url packer empty_file))) <= 11.
Proof.
  assert (HB : body_length (Body reset_response) <= ContentLength reset_response)
    by (vm_compute; discriminate).
  assert (HR : Z.of_nat (start_offset reset_server url packer empty_file)
               + ContentLength reset_response < uint_size)
    by by_computation.
  destruct (Download_progress_le_total reset_server url packer empty_file
              reset_response ltac:(by_computation) ltac:(by_computation)
              ltac:(by_computation) HB HR)
    as (Ht & Hp & _).
  split; [rewrite Ht; by_computation|].
  rewrite Ht in Hp. exact Hp.
Defined.

End MoreExamples.
